(** * A shallow embedding of the TCP chat program (main.c)

    The development follows the C source function by function:
    - [CString]: the 300-byte global buffers, [strlen], [memset], [fgets],
      array indexing with a [size_t] index;
    - [Input]: [WaitForUserInput], the body of the keyboard thread;
    - [Session]: the [Chat] loop, run against a scripted environment;
    - [Flat]: [WaitForUserInput] again, in a flat address space;
    - [Prompt]: [GetValidPortNo] and [GetValidIP];
    - [Program]: the role-selection loop of [main];
    - [Threads]: an interleaving model of the flag-and-join hand-off between
      [Chat] and [WaitForUserInput];
    - [Console]: [ClearInputBuffer] and the reading of the role in [main];
    - [Net]: [HostServer], [ConnectToHost] and [CloseConnection].
    The definitions used to state properties are [Spec], [SessionSpec],
    [ProgramSpec], [ThreadsSpec] and [ExtraSpec]. Then come the lemmas
    ([CStringFacts], [InputFacts], [SessionFacts], [FlatFacts]), the
    properties claimed by the specification, C1 to C10 ([SessionClaims],
    [PromptClaims], [ProgramClaims], [ThreadsClaims]), and further properties
    of the code, X1 to X22.

    Undefined behaviour of the C program (an access outside an array, a
    string without terminator) is a result [None]. Two things that the C
    standard leaves undefined and that a compiled program goes through all
    the same are parameters instead: what the library stores when a number
    read does not fit an [int] ([Prompt.int_overflow]), and, in [Flat], what
    the byte in front of [InputBuffer] holds. *)

From Stdlib Require Import String Ascii List ZArith Bool Lia.
Import ListNotations.

(** Sequencing of steps that may be undefined. *)
Notation "x <- c ;; k" := (match c with Some x => k | None => None end)
  (at level 61, c at next level, right associativity).

(** ** C strings and fixed-size buffers *)
Module CString.

Definition NUL : ascii := "000"%char.
Definition LF : ascii := "010"%char.   (* '\n' *)
Definition CR : ascii := "013"%char.   (* '\r' *)

(** [char InputBuffer[300]], [char ReceiveBuffer[300]] *)
Definition BUFSZ : nat := 300.
Definition buffer := list ascii.

Definition zeroed : buffer := repeat NUL BUFSZ.

(** [strlen]: the number of bytes before the first NUL; undefined when the
    array holds no NUL, since the scan leaves the array. *)
Fixpoint strlen (b : buffer) : option nat :=
  match b with
  | [] => None
  | c :: r => if Ascii.eqb c NUL then Some 0 else option_map S (strlen r)
  end.

(** The C string held by an array: the bytes before the first NUL. *)
Definition cstring (b : buffer) : option (list ascii) :=
  n <- strlen b ;; Some (firstn n b).

(** [memset(b, '\0', n)] *)
Definition memset0 (b : buffer) (n : nat) : buffer :=
  repeat NUL (Nat.min n (length b)) ++ skipn n b.

(** Copying [src] to the start of the array [b] (what [fgets] and [recv] do
    with the bytes they deliver). *)
Definition blit (src : list ascii) (b : buffer) : buffer :=
  src ++ skipn (length src) b.

(** [size_t] is an unsigned 64-bit integer; subtraction wraps around. (With
    the 32 bits of other platforms, [0 - 1] is just as far from the arrays
    of the program.) *)
Definition SIZE_WIDTH : Z := 64.
Definition size_sub (a b : Z) : Z := ((a - b) mod 2 ^ SIZE_WIDTH)%Z.

(** [b[i]] as an rvalue, [i] a [size_t]: defined inside the array only. *)
Definition load (b : buffer) (i : Z) : option ascii :=
  if ((0 <=? i) && (i <? Z.of_nat (length b)))%Z
  then nth_error b (Z.to_nat i) else None.

(** [b[i] = c] *)
Definition store (b : buffer) (i : Z) (c : ascii) : option buffer :=
  if ((0 <=? i) && (i <? Z.of_nat (length b)))%Z
  then Some (firstn (Z.to_nat i) b ++ c :: skipn (S (Z.to_nat i)) b)
  else None.

(** The keyboard is a stream of pending bytes; its end is end-of-file.
    [fgets_take k s] is what [fgets] consumes with room for [k] bytes: it
    stops after a newline, after [k] bytes, or at end-of-file. *)
Fixpoint fgets_take (k : nat) (s : list ascii) : list ascii * list ascii :=
  match k, s with
  | O, _ => ([], s)
  | _, [] => ([], [])
  | S k', c :: r =>
      if Ascii.eqb c LF then ([c], r)
      else let (l, r') := fgets_take k' r in (c :: l, r')
  end.

(** [fgets(b, n, stdin)]: the bytes read followed by a NUL are stored at the
    start of [b]; when nothing could be read, [fgets] returns NULL and [b] is
    left as it was (the program never looks at the return value). *)
Definition fgets (b : buffer) (n : nat) (stdin : list ascii)
  : buffer * list ascii :=
  let (l, rest) := fgets_take (n - 1) stdin in
  match l with
  | [] => (b, rest)
  | _ => (blit (l ++ [NUL]) b, rest)
  end.

End CString.
Import CString.

(** ** The keyboard thread *)
Module Input.

(** The two trimming steps of [WaitForUserInput] have the same shape:
<<
    size_t LastChar = strlen (InputBuffer) - 1;
    if (InputBuffer[LastChar] == c)
        InputBuffer[LastChar] = '\0';
>> *)
Definition trim_last (c : ascii) (b : buffer) : option buffer :=
  n <- strlen b ;;
  let LastChar := size_sub (Z.of_nat n) 1 in
  x <- load b LastChar ;;
  if Ascii.eqb x c then store b LastChar NUL else Some b.

(** [WaitForUserInput], up to the assignment of [bHasMessageWaiting]: the
    new contents of [InputBuffer] and what is left of the keyboard stream. *)
Definition WaitForUserInput (stdin : list ascii) (InputBuffer : buffer)
  : option (buffer * list ascii) :=
  let (b0, rest) := fgets InputBuffer 300 stdin in
  b1 <- trim_last LF b0 ;;
  b2 <- trim_last CR b1 ;;
  Some (b2, rest).

End Input.
Import Input.

(** String literals as byte lists, for concrete inputs. *)
Definition text (s : string) : list ascii := list_ascii_of_string s.

(** ** The chat session *)
Module Session.

(** What [printf] shows during a session. *)
Inductive message :=
| MsgConnected                    (* "Connected.  Type your message ..." *)
| MsgThreadError                  (* "Error creating thread\n" *)
| MsgDisconnected                 (* "Other party disconnected!\n" *)
| MsgSocketError (code : Z)       (* "Socket Error! Code: %d\n" *)
| MsgPeerQuit                     (* "Other party quit!\n" *)
| MsgTheySaid (s : list ascii).   (* "They said: %s\n" *)

(** The calls [Chat] makes on the thread library, on the socket and on the
    console. *)
Inductive event :=
| Join                            (* pthread_join(InputThread, NULL) *)
| Send (payload : list ascii)     (* send(ServerSocket, InputBuffer, strlen(InputBuffer), 0) *)
| Create                          (* pthread_create(&InputThread, NULL, WaitForUserInput, ...) *)
| Select                          (* select(32, &FDS, NULL, NULL, &TV) *)
| Recv                            (* recv(ServerSocket, ReceiveBuffer, 300, 0) *)
| Print (m : message).

(** The globals of the program that [Chat] and the keyboard thread use, the
    keyboard stream, whether a keyboard thread is running, and the log of the
    calls made so far; each call is logged with the value [bPerformExit] had
    when it was made. *)
Record world := mkWorld {
  bHasMessageWaiting : bool;
  bPerformExit : bool;
  InputBuffer : buffer;
  ReceiveBuffer : buffer;
  stdin : list ascii;
  thread_running : bool;
  log : list (bool * event)
}.

Definition emit (e : event) (w : world) : world :=
  mkWorld (bHasMessageWaiting w) (bPerformExit w) (InputBuffer w)
          (ReceiveBuffer w) (stdin w) (thread_running w)
          (log w ++ [(bPerformExit w, e)]).

Definition set_bHasMessageWaiting (v : bool) (w : world) : world :=
  mkWorld v (bPerformExit w) (InputBuffer w) (ReceiveBuffer w) (stdin w)
          (thread_running w) (log w).

Definition set_bPerformExit (v : bool) (w : world) : world :=
  mkWorld (bHasMessageWaiting w) v (InputBuffer w) (ReceiveBuffer w) (stdin w)
          (thread_running w) (log w).

Definition set_InputBuffer (b : buffer) (w : world) : world :=
  mkWorld (bHasMessageWaiting w) (bPerformExit w) b (ReceiveBuffer w) (stdin w)
          (thread_running w) (log w).

Definition set_ReceiveBuffer (b : buffer) (w : world) : world :=
  mkWorld (bHasMessageWaiting w) (bPerformExit w) (InputBuffer w) b (stdin w)
          (thread_running w) (log w).

Definition set_stdin (s : list ascii) (w : world) : world :=
  mkWorld (bHasMessageWaiting w) (bPerformExit w) (InputBuffer w)
          (ReceiveBuffer w) s (thread_running w) (log w).

Definition set_thread_running (v : bool) (w : world) : world :=
  mkWorld (bHasMessageWaiting w) (bPerformExit w) (InputBuffer w)
          (ReceiveBuffer w) (stdin w) v (log w).

(** What the outside does during one pass through the loop body. *)
Inductive recv_result :=
| RecvError                       (* recv returns SOCKET_ERROR *)
| RecvData (bytes : list ascii).  (* recv returns the number of bytes stored;
                                     none: the peer closed the connection *)

Record iter_env := mkEnv {
  thread_done : bool;     (* the keyboard thread finishes before the test of
                             bHasMessageWaiting *)
  send_ok : bool;         (* send does not return SOCKET_ERROR *)
  create_ok : bool;       (* pthread_create returns 0 *)
  SelectResponse : Z;     (* the value select returns *)
  recv_res : recv_result;
  last_error : Z          (* WSAGetLastError() *)
}.

Definition WSAECONNRESET : Z := 10054.

Section Build.

(** [_WIN32] is defined. *)
Variable win32 : bool.

(** The error report, compiled on Windows only:
<<
    #ifdef _WIN32
    int SocketError = WSAGetLastError();
    if (SocketError == WSAECONNRESET)
        printf("Other party disconnected!\n");
    else
        printf("Socket Error! Code: %d\n", SocketError);
    #endif
>> *)
Definition report_error (env : iter_env) (w : world) : world :=
  if win32 then
    if (last_error env =? WSAECONNRESET)%Z
    then emit (Print MsgDisconnected) w
    else emit (Print (MsgSocketError (last_error env))) w
  else w.

(** [pthread_create] and the test of its result. *)
Definition start_thread (ok : bool) (w : world) : world :=
  let w := emit Create w in
  if ok then set_thread_running true w
  else emit (Print MsgThreadError) w.

(** The keyboard thread runs [WaitForUserInput] to its end. *)
Definition thread_finishes (w : world) : option world :=
  if thread_running w then
    r <- WaitForUserInput (stdin w) (InputBuffer w) ;;
    Some (set_thread_running false
            (set_bHasMessageWaiting true
               (set_stdin (snd r) (set_InputBuffer (fst r) w))))
  else Some w.

(** The body of [if (bHasMessageWaiting)], lines 304-324. *)
Definition input_ready (env : iter_env) (w : world) : option world :=
  let w := emit Join w in
  n <- strlen (InputBuffer w) ;;
  let w := emit (Send (firstn n (InputBuffer w))) w in
  let w := if send_ok env then w
           else set_bPerformExit true (report_error env w) in
  let w := set_bHasMessageWaiting false w in
  let w := set_InputBuffer (memset0 (InputBuffer w) 300) w in
  Some (start_thread (create_ok env) w).

(** [select] and the [switch] on [recv], lines 328-365. *)
Definition poll_receive (env : iter_env) (w : world) : option world :=
  let w := emit Select w in
  if (SelectResponse env =? -1)%Z then
    Some (set_bPerformExit true (report_error env w))
  else if (SelectResponse env >? 0)%Z then
    let w := emit Recv w in
    match recv_res env with
    | RecvError => Some (set_bPerformExit true (report_error env w))
    | RecvData bytes =>
        match firstn 300 bytes with
        | [] => Some (set_bPerformExit true (emit (Print MsgPeerQuit) w))
        | got =>
            let rb := blit got (ReceiveBuffer w) in
            n <- strlen rb ;;
            let w := emit (Print (MsgTheySaid (firstn n rb))) w in
            Some (set_ReceiveBuffer (memset0 rb n) w)
        end
    end
  else Some w.

(** One pass through the body of the [do ... while]. *)
Definition Chat_iteration (env : iter_env) (w : world) : option world :=
  w <- (if thread_done env then thread_finishes w else Some w) ;;
  w <- (if bHasMessageWaiting w then input_ready env w else Some w) ;;
  poll_receive env w.

(** The [do ... while (bPerformExit != true)] loop, for as many passes as the
    environment is scripted; the boolean tells whether the loop was left. *)
Fixpoint Chat_loop (envs : list iter_env) (w : world) : option (world * bool) :=
  match envs with
  | [] => Some (w, false)
  | env :: envs' =>
      w' <- Chat_iteration env w ;;
      if bPerformExit w' then Some (w', true) else Chat_loop envs' w'
  end.

(** [Chat]: the initialisation before the loop, then the loop. *)
Definition Chat (create0_ok : bool) (envs : list iter_env) (w : world)
  : option (world * bool) :=
  let w := set_bPerformExit false w in
  let w := set_bHasMessageWaiting false w in
  let w := emit (Print MsgConnected) w in
  let w := start_thread create0_ok w in
  Chat_loop envs w.

End Build.

(** The state in which [main] calls [Chat]: [ReceiveBuffer] is as the
    [memset] of [main] left it, [InputBuffer] holds the last line a prompt
    has read, [keys] is what will be typed during the session. *)
Definition at_entry (InputBuffer : buffer) (keys : list ascii) : world :=
  mkWorld false false InputBuffer zeroed keys false [].

(** The payloads of the [send] calls in a log. *)
Fixpoint sent (l : list (bool * event)) : list (list ascii) :=
  match l with
  | [] => []
  | (_, Send p) :: r => p :: sent r
  | _ :: r => sent r
  end.

End Session.
Import Session.

(** ** The keyboard thread in a flat address space *)
Module Flat.

(** [InputBuffer[LastChar]] with [LastChar = SIZE_MAX] is the byte at the
    address [InputBuffer + SIZE_MAX], which wraps around to
    [InputBuffer - 1]: the byte in front of the array. The C standard does
    not define that access, and [Input.trim_last] is [None] there; a compiled
    program makes it all the same. Here the memory is that byte and the
    array, and the access goes to the byte. *)
Record memory := mkMemory {
  before : ascii;
  array : buffer
}.

Definition SIZE_MAX : Z := (2 ^ SIZE_WIDTH - 1)%Z.

(** [array[i]] as an rvalue *)
Definition load (m : memory) (i : Z) : option ascii :=
  match CString.load (array m) i with
  | Some x => Some x
  | None => if (i =? SIZE_MAX)%Z then Some (before m) else None
  end.

(** [array[i] = c] *)
Definition store (m : memory) (i : Z) (c : ascii) : option memory :=
  match CString.store (array m) i c with
  | Some b => Some (mkMemory (before m) b)
  | None => if (i =? SIZE_MAX)%Z then Some (mkMemory c (array m)) else None
  end.

(** The trimming steps and [WaitForUserInput], as in [Input]. *)
Definition trim_last (c : ascii) (m : memory) : option memory :=
  n <- strlen (array m) ;;
  let LastChar := size_sub (Z.of_nat n) 1 in
  x <- load m LastChar ;;
  if Ascii.eqb x c then store m LastChar NUL else Some m.

Definition WaitForUserInput (stdin : list ascii) (m : memory)
  : option (memory * list ascii) :=
  let (b0, rest) := fgets (array m) 300 stdin in
  m1 <- trim_last LF (mkMemory (before m) b0) ;;
  m2 <- trim_last CR m1 ;;
  Some (m2, rest).

(** The keyboard thread runs to its end, as [Session.thread_finishes];
    [byte_before] is what the byte in front of [InputBuffer] holds. *)
Definition thread_finishes (byte_before : ascii) (w : world) : option world :=
  if thread_running w then
    r <- WaitForUserInput (stdin w) (mkMemory byte_before (InputBuffer w)) ;;
    Some (set_thread_running false
            (set_bHasMessageWaiting true
               (set_stdin (snd r) (set_InputBuffer (array (fst r)) w))))
  else Some w.

End Flat.

(** ** Prompting for the port and the address *)
Module Prompt.

(** <ctype.h> in the C locale, taken as defined on every byte *)
Definition isspace (c : ascii) : bool :=
  let n := nat_of_ascii c in (n =? 32) || ((9 <=? n) && (n <=? 13)).

Definition isdigit (c : ascii) : bool :=
  let n := nat_of_ascii c in (48 <=? n) && (n <=? 57).

Definition digit_value (c : ascii) : Z := (Z.of_nat (nat_of_ascii c) - 48)%Z.

Fixpoint skip_space (s : list ascii) : list ascii :=
  match s with
  | c :: r => if isspace c then skip_space r else s
  | [] => []
  end.

(** The value of the longest run of digits at the start of [s]. *)
Fixpoint digits (acc : Z) (s : list ascii) : Z :=
  match s with
  | c :: r => if isdigit c then digits (10 * acc + digit_value c)%Z r else acc
  | [] => acc
  end.

(** The decimal integer at the start of a string, as [sscanf]'s [%d] and
    [atoi] read it: white space, an optional sign, digits. [None] when no
    digit is found. *)
Definition parse_int (s : list ascii) : option Z :=
  let s := skip_space s in
  let signed :=
    match s with
    | c :: r => if Ascii.eqb c "-" then (true, r)
                else if Ascii.eqb c "+" then (false, r) else (false, s)
    | [] => (false, s)
    end in
  match snd signed with
  | c :: _ =>
      if isdigit c
      then Some (if fst signed then (- digits 0 (snd signed))%Z
                 else digits 0 (snd signed))
      else None
  | [] => None
  end.

(** The first word of a string, as [sscanf]'s [%s] reads it. *)
Fixpoint take_word (s : list ascii) : list ascii :=
  match s with
  | c :: r => if isspace c then [] else c :: take_word r
  | [] => []
  end.
Definition first_word (s : list ascii) : list ascii := take_word (skip_space s).

(** What a run of one of the two prompting loops comes to. *)
Inductive outcome (A : Type) :=
| Returned (a : A)      (* the function returns *)
| Undefined             (* the program's behaviour is undefined *)
| Prompting.            (* still in the loop when the fuel is used up *)
Arguments Returned {A} a.
Arguments Undefined {A}.
Arguments Prompting {A}.

(** What [GetValidPortNo] returns with: the port, how many times it printed
    "Invalid Input.  try again.", the keyboard stream and [InputBuffer]. *)
Record port_answer := mkPortAnswer {
  PortNo : Z;
  port_retries : nat;
  port_stdin : list ascii;
  port_buffer : buffer
}.

(** The locals of [GetValidIP] that the validation loop changes. *)
Record ip_scan := mkScan {
  bValidInput : bool;
  LastIPOctet : list ascii;      (* the string held in char LastIPOctet[20] *)
  OctetCounter : Z
}.

Record ip_answer := mkIPAnswer {
  IPAddress : list ascii;
  ip_retries : nat;
  ip_stdin : list ascii;
  ip_buffer : buffer
}.

(** [strcat(LastIPOctet, cToStr)] into the 20-byte array. *)
Definition strcat1 (o : list ascii) (c : ascii) : option (list ascii) :=
  if length o + 2 <=? 20 then Some (o ++ [c]) else None.

Definition dot : ascii := "."%char.

Definition INT_MAX : Z := 2147483647.
Definition INT_MIN : Z := -2147483648.
Definition LONG_MAX : Z := 9223372036854775807.
Definition LONG_MIN : Z := -9223372036854775808.

(** The C standard does not define what [sscanf]'s [%d] and [atoi] store
    when the number read does not fit an [int]; the program goes on with
    whatever the C library stores. That is a parameter of the prompts, of
    this type: [None] where nothing can be said, [Some i] where the library
    stores [i]. *)
Definition int_overflow := Z -> option Z.

(** Nothing is assumed about the library. *)
Definition strict : int_overflow := fun _ => None.

(** The GNU C library: both functions convert with [strtol], which stops at
    [LONG_MIN] and [LONG_MAX], and store the [long] in the [int], which keeps
    its low 32 bits. *)
Definition int_of_long (v : Z) : Z := ((v + 2 ^ 31) mod 2 ^ 32 - 2 ^ 31)%Z.
Definition glibc : int_overflow :=
  fun v => Some (int_of_long (Z.max LONG_MIN (Z.min LONG_MAX v))).

Section Library.

Variable overflow : int_overflow.

(** A number stored in an [int]: itself when it fits. *)
Definition as_int (v : Z) : option Z :=
  if ((INT_MIN <=? v) && (v <=? INT_MAX))%Z then Some v else overflow v.

(** [atoi]: 0 when the string does not start with a number. *)
Definition atoi (s : list ascii) : option Z :=
  match parse_int s with
  | Some v => as_int v
  | None => Some 0%Z
  end.

(** The test of one line in [GetValidPortNo], line 404:
<<
    sscanf(InputBuffer, "%d", PortNo) == 1 && *PortNo < 65535 && *PortNo > 0
>>
    [Some (Some p)]: the test holds with [*PortNo = p]; [Some None]: it does
    not. *)
Definition port_test (InputBuffer : buffer) : option (option Z) :=
  s <- cstring InputBuffer ;;
  match parse_int s with
  | None => Some None
  | Some v =>
      PortNo <- as_int v ;;
      if ((PortNo <? 65535) && (PortNo >? 0))%Z
      then Some (Some PortNo) else Some None
  end.

(** [GetValidPortNo]: the [do ... while (!bValidInput)] loop. *)
Fixpoint GetValidPortNo (fuel : nat) (retries : nat) (stdin : list ascii)
    (InputBuffer : buffer) : outcome port_answer :=
  match fuel with
  | O => Prompting
  | S fuel' =>
      let (b, rest) := fgets InputBuffer 300 stdin in
      match port_test b with
      | None => Undefined
      | Some (Some p) => Returned (mkPortAnswer p retries rest b)
      | Some None => GetValidPortNo fuel' (S retries) rest b
      end
  end.

(** The body of the [for] loop, lines 439-467; the boolean is [true] when
    the body ends in [break]. *)
Definition ip_char (InputChar : ascii) (st : ip_scan) : option (ip_scan * bool) :=
  if negb (isdigit InputChar) && negb (Ascii.eqb InputChar dot) then
    Some (mkScan false (LastIPOctet st) (OctetCounter st), true)
  else if Ascii.eqb InputChar dot && (length (LastIPOctet st) =? 0) then
    Some (mkScan false (LastIPOctet st) (OctetCounter st), true)
  else
    let st := if Ascii.eqb InputChar dot
              then mkScan (bValidInput st) (LastIPOctet st) (OctetCounter st + 1)
              else st in
    if Ascii.eqb InputChar dot && (0 <? length (LastIPOctet st)) then
      v <- atoi (LastIPOctet st) ;;
      if ((v >? 255) || (v <? 0))%Z
      then Some (mkScan false (LastIPOctet st) (OctetCounter st), true)
      else Some (mkScan (bValidInput st) [] (OctetCounter st), false)
    else
      o <- strcat1 (LastIPOctet st) InputChar ;;
      Some (mkScan (bValidInput st) o (OctetCounter st), false).

(** The [for] loop over the characters of [IPAddressBuffer]. *)
Fixpoint ip_loop (cs : list ascii) (st : ip_scan) : option ip_scan :=
  match cs with
  | [] => Some st
  | c :: r =>
      p <- ip_char c st ;;
      if snd p then Some (fst p) else ip_loop r (fst p)
  end.

(** The test of one line in [GetValidIP], lines 429-473: [Some (Some a)]
    when the word [a] is taken as the address, [Some None] when the line is
    refused. [IPAddressBuffer] is the 50-byte array of [main]. *)
Definition ip_test (InputBuffer : buffer) : option (option (list ascii)) :=
  s <- cstring InputBuffer ;;
  match first_word s with
  | [] => Some None                       (* sscanf does not return 1 *)
  | IPAddressBuffer =>
      if length IPAddressBuffer + 1 <=? 50 then
        st <- ip_loop IPAddressBuffer (mkScan true [] 0) ;;
        let valid := if (OctetCounter st =? 3)%Z then bValidInput st else false in
        v <- atoi (LastIPOctet st) ;;
        let valid := if ((v >? 255) || (v <? 0))%Z then false else valid in
        Some (if valid then Some IPAddressBuffer else None)
      else None
  end.

(** [GetValidIP]: the [do ... while (!bValidInput)] loop. *)
Fixpoint GetValidIP (fuel : nat) (retries : nat) (stdin : list ascii)
    (InputBuffer : buffer) : outcome ip_answer :=
  match fuel with
  | O => Prompting
  | S fuel' =>
      let (b, rest) := fgets InputBuffer 300 stdin in
      match ip_test b with
      | None => Undefined
      | Some (Some a) => Returned (mkIPAnswer a retries rest b)
      | Some None => GetValidIP fuel' (S retries) rest b
      end
  end.

End Library.

(** A line typed at the keyboard, as [fgets] stores it in a zeroed buffer. *)
Definition typed_line (s : string) : buffer := blit (text s ++ [LF; NUL]) zeroed.

End Prompt.
Import Prompt.

(** ** The role-selection loop of [main] *)
Module Program.

(** [enum { CLIENT, SERVER, UNSET } ConnectionMode = UNSET;] *)
Inductive mode := CLIENT | SERVER | UNSET.

Definition mode_eqb (a b : mode) : bool :=
  match a, b with
  | CLIENT, CLIENT | SERVER, SERVER | UNSET, UNSET => true
  | _, _ => false
  end.

(** What [main] does, in order; the functions it calls are not run here. *)
Inductive step :=
| AskRole                 (* printf("Press 1 to run chat server or 2 ..."),
                             getchar, ClearInputBuffer *)
| CallGetValidPortNo
| CallGetValidIP
| CallHostServer
| CallConnectToHost
| SayConnected            (* "Accepted Connection!!" / "Connection Success!!" *)
| SayFailed               (* "Connection failed!" *)
| CallChat
| CallCloseConnection
| SayInvalid              (* "You have provided invalid input... try again!",
                             ClearInputBuffer *)
| AskEnter.               (* printf("\nPress Enter to exit."), getchar *)

(** One answer to the role prompt and what follows it: the character typed,
    the result of [HostServer] or [ConnectToHost], and whether the session,
    if one starts, comes to an end. *)
Record attempt := mkAttempt {
  InputChar : ascii;
  bConnectionSuccess : bool;
  session_ends : bool
}.

(** How far [main] got. *)
Inductive progress :=
| AtRolePrompt            (* waiting in getchar for a role *)
| InChat                  (* inside Chat *)
| Exited.                 (* main returned 0 *)

(** The part of a branch that follows the connection attempt, the same for
    both roles:
<<
    if (bConnectionSuccess) { printf(...); Chat(); }
    else { printf(...); }
    CloseConnection();
>>
    [None] when [Chat] does not return. *)
Definition after_connect (a : attempt) (done : list step) : option (list step) :=
  if bConnectionSuccess a then
    if session_ends a
    then Some (done ++ [SayConnected; CallChat; CallCloseConnection])
    else None
  else Some (done ++ [SayFailed; CallCloseConnection]).

(** The [while (ConnectionMode != CLIENT && ConnectionMode != SERVER)] loop
    of [main] and what follows it. *)
Fixpoint main_loop (script : list attempt) (ConnectionMode : mode)
    (done : list step) : list step * progress :=
  if negb (mode_eqb ConnectionMode CLIENT) && negb (mode_eqb ConnectionMode SERVER)
  then
    match script with
    | [] => (done ++ [AskRole], AtRolePrompt)
    | a :: script' =>
        let done := done ++ [AskRole] in
        if Ascii.eqb (InputChar a) "1" then
          let done := done ++ [CallGetValidPortNo; CallHostServer] in
          match after_connect a done with
          | Some done => main_loop script' SERVER done
          | None => (done ++ [SayConnected; CallChat], InChat)
          end
        else if Ascii.eqb (InputChar a) "2" then
          let done := done ++ [CallGetValidPortNo; CallGetValidIP;
                               CallConnectToHost] in
          match after_connect a done with
          | Some done => main_loop script' CLIENT done
          | None => (done ++ [SayConnected; CallChat], InChat)
          end
        else main_loop script' ConnectionMode (done ++ [SayInvalid])
    end
  else (done ++ [AskEnter], Exited).

Definition main (script : list attempt) : list step * progress :=
  main_loop script UNSET [].

End Program.

(** ** The hand-off between [Chat] and the keyboard thread *)
Module Threads.

(** Where a keyboard thread is in [WaitForUserInput]. *)
Inductive task_pc :=
| TFgets       (* before line 372: fgets writes InputBuffer *)
| TTrimLF      (* before lines 376-378: reads and writes InputBuffer *)
| TTrimCR      (* before lines 380-382: reads and writes InputBuffer *)
| TSetFlag     (* before line 384: bHasMessageWaiting = true *)
| TExit        (* before line 385: pthread_exit *)
| TDone.       (* terminated *)

(** Where the main thread is in [Chat]. *)
Inductive loop_pc :=
| LCreate0     (* line 296: pthread_create before the loop *)
| LTest        (* line 303: if (bHasMessageWaiting) *)
| LJoin        (* line 304: pthread_join(InputThread, NULL) *)
| LSend        (* line 306: send reads InputBuffer *)
| LClear       (* line 318: bHasMessageWaiting = false *)
| LMemset      (* line 319: memset writes InputBuffer *)
| LCreate      (* line 322: pthread_create *)
| LPoll        (* lines 328-365: select, recv *)
| LWhile       (* line 367: while (bPerformExit != true) *)
| LReturn.

Record config := mkConfig {
  pc : loop_pc;
  bHasMessageWaiting : bool;
  bPerformExit : bool;
  tasks : list task_pc;          (* every thread created so far, by number *)
  InputThread : option nat       (* the thread the handle names *)
}.

(** The scheduler runs the main thread ([ok] is the result of the call it is
    about to make, where it makes one) or thread number [i]. *)
Inductive action :=
| Loop (ok : bool)
| Task (i : nat).

Definition next (t : task_pc) : option task_pc :=
  match t with
  | TFgets => Some TTrimLF
  | TTrimLF => Some TTrimCR
  | TTrimCR => Some TSetFlag
  | TSetFlag => Some TExit
  | TExit => Some TDone
  | TDone => None
  end.

Fixpoint update (l : list task_pc) (i : nat) (t : task_pc) : list task_pc :=
  match l, i with
  | [], _ => []
  | _ :: r, O => t :: r
  | x :: r, S j => x :: update r j t
  end.

Definition is_done (t : task_pc) : bool :=
  match t with TDone => true | _ => false end.

(** [pthread_create]: on success a new thread starts at the top of
    [WaitForUserInput] and the handle names it. *)
Definition spawn (ok : bool) (to : loop_pc) (c : config) : config :=
  if ok
  then mkConfig to (bHasMessageWaiting c) (bPerformExit c)
                (tasks c ++ [TFgets]) (Some (length (tasks c)))
  else mkConfig to (bHasMessageWaiting c) (bPerformExit c)
                (tasks c) (InputThread c).

Definition goto (to : loop_pc) (c : config) : config :=
  mkConfig to (bHasMessageWaiting c) (bPerformExit c) (tasks c) (InputThread c).

(** One step of one thread; [None] when that thread cannot move
    ([pthread_join] on a thread that has not terminated, a thread that has
    terminated, [Chat] after its return). *)
Definition step (a : action) (c : config) : option config :=
  match a with
  | Task i =>
      t <- nth_error (tasks c) i ;;
      t' <- next t ;;
      Some (mkConfig (pc c)
              (match t with TSetFlag => true | _ => bHasMessageWaiting c end)
              (bPerformExit c) (update (tasks c) i t') (InputThread c))
  | Loop ok =>
      match pc c with
      | LCreate0 => Some (spawn ok LTest c)
      | LTest => Some (goto (if bHasMessageWaiting c then LJoin else LPoll) c)
      | LJoin =>
          match InputThread c with
          | Some i =>
              t <- nth_error (tasks c) i ;;
              if is_done t then Some (goto LSend c) else None
          | None => Some (goto LSend c)
          end
      | LSend =>
          Some (mkConfig LClear (bHasMessageWaiting c)
                  (if ok then bPerformExit c else true)
                  (tasks c) (InputThread c))
      | LClear =>
          Some (mkConfig LMemset false (bPerformExit c) (tasks c) (InputThread c))
      | LMemset => Some (goto LCreate c)
      | LCreate => Some (spawn ok LPoll c)
      | LPoll =>
          Some (mkConfig LWhile (bHasMessageWaiting c)
                  (if ok then bPerformExit c else true)
                  (tasks c) (InputThread c))
      | LWhile => Some (goto (if bPerformExit c then LReturn else LTest) c)
      | LReturn => None
      end
  end.

(** [Chat] is entered with both flags just set to false and no thread. *)
Definition init : config := mkConfig LCreate0 false false [] None.

Fixpoint run (sched : list action) (c : config) : option config :=
  match sched with
  | [] => Some c
  | a :: sched' => c' <- step a c ;; run sched' c'
  end.

(** The main thread is about to read or write [InputBuffer]. *)
Definition loop_uses_buffer (p : loop_pc) : bool :=
  match p with LSend | LMemset => true | _ => false end.

(** The thread may still write [InputBuffer]. *)
Definition may_write (t : task_pc) : bool :=
  match t with TFgets | TTrimLF | TTrimCR => true | _ => false end.

(** The threads that have been created and have not terminated. *)
Definition active (c : config) : nat :=
  length (filter (fun t => negb (is_done t)) (tasks c)).

End Threads.

(** ** Definitions used to state the properties *)

(** The array [b] holds the string [l]: [l], a NUL, then anything. *)
Definition holds (b : buffer) (l : list ascii) : Prop :=
  ~ In NUL l /\ exists r, b = l ++ NUL :: r.

(** The specification's wording of the Line Input Source. *)
Module Spec.

(** "strips a single trailing newline and, if present, a preceding carriage
    return": removing one given byte from the end of a line. *)
Definition strip_last (c : ascii) (l : list ascii) : list ascii :=
  match rev l with
  | x :: r => if Ascii.eqb x c then rev r else l
  | [] => l
  end.

Definition trimmed (L : list ascii) : list ascii :=
  strip_last CR (strip_last LF L).

End Spec.

Module SessionSpec.

(** The entries a pass of the loop adds to the log. *)
Definition added (w w' : world) : list (bool * event) :=
  skipn (length (log w)) (log w').

(** The number of [pthread_create] calls in a log. *)
Fixpoint creates (l : list (bool * event)) : nat :=
  match l with
  | [] => 0
  | (_, Create) :: r => S (creates r)
  | _ :: r => creates r
  end.

(** The messages printed, in order. *)
Fixpoint printed (l : list (bool * event)) : list message :=
  match l with
  | [] => []
  | (_, Print m) :: r => m :: printed r
  | _ :: r => printed r
  end.

Definition is_error_report (m : message) : bool :=
  match m with
  | MsgDisconnected | MsgSocketError _ => true
  | _ => false
  end.

(** The message of the Windows error report. *)
Definition error_message (env : iter_env) : message :=
  if (last_error env =? WSAECONNRESET)%Z then MsgDisconnected
  else MsgSocketError (last_error env).

(** Calls on the connection: [send], [select], [recv]. *)
Definition is_socket_call (e : event) : bool :=
  match e with
  | Send _ | Select | Recv => true
  | _ => false
  end.

(** The calls on the connection made while [bPerformExit] was already set. *)
Definition late_socket_calls (l : list (bool * event)) : list event :=
  map snd (filter (fun p => fst p && is_socket_call (snd p)) l).

(** The state in which [Chat] is entered in the server role when the port
    was given as 8080: the line of the port is still in [InputBuffer]. *)
Definition entry (keys : list ascii) : world :=
  at_entry (typed_line "8080") keys.

(** The state of that session when the user has typed a carriage return and
    a newline and the keyboard thread has finished: the line is trimmed to
    the empty string (what follows it in the array is left of the port). *)
Definition after_crlf : world :=
  mkWorld true false (blit [NUL; NUL; NUL] (typed_line "8080")) zeroed [] false
          [(false, Print MsgConnected); (false, Create)].

(** The state in which [Chat] returns when the user has typed "x", [send]
    has failed with a connection reset and the peer has sent "hi". *)
Definition after_failed_send : world :=
  mkWorld false true zeroed zeroed [] true
    [(false, Print MsgConnected); (false, Create); (false, Join);
     (false, Send (text "x")); (false, Print MsgDisconnected);
     (true, Create); (true, Select); (true, Recv);
     (true, Print (MsgTheySaid (text "hi")))].

(** An environment in which nothing fails and nothing arrives. *)
Definition quiet : iter_env := mkEnv false true true 0 (RecvData []) 0.
(** The same, the keyboard thread having finished. *)
Definition line_typed : iter_env := mkEnv true true true 0 (RecvData []) 0.
(** [send] fails, then the socket has data. *)
Definition send_fails : iter_env := mkEnv true false true 1 (RecvData (text "hi")) 10054.
(** [recv] fails. *)
Definition recv_fails : iter_env := mkEnv false true true 1 RecvError 104.
(** The peer sends five bytes, the third a NUL. *)
Definition recv_nul : iter_env :=
  mkEnv false true true 1 (RecvData (text "ab" ++ NUL :: text "cd")) 0.

(** The peer sends 300 bytes, none of them NUL. *)
Definition recv_full : iter_env :=
  mkEnv false true true 1 (RecvData (repeat "a"%char 300)) 0.



(** Whether a pass of the loop goes through the input-ready branch: the flag
    is set when the pass begins, or the keyboard thread finishes in time for
    the test of the flag. *)
Definition takes_input (env : iter_env) (w : world) : bool :=
  bHasMessageWaiting w || (thread_done env && thread_running w).

(** C3 as the specification states it, for one state and one environment in
    which [select] reports data: an error report on a receive error, "peer
    quit" and no error report on a receive of no bytes, and otherwise the
    bytes received shown, [ReceiveBuffer] cleared and the session running. *)
Definition C3_as_stated (win32 : bool) (env : iter_env) (w : world) : Prop :=
  bPerformExit w = false -> (SelectResponse env > 0)%Z ->
  exists w', poll_receive win32 env w = Some w' /\
    match recv_res env with
    | RecvError =>
        bPerformExit w' = true /\
        exists m, In m (printed (added w w')) /\ is_error_report m = true
    | RecvData bytes =>
        match firstn 300 bytes with
        | [] =>
            bPerformExit w' = true /\ In MsgPeerQuit (printed (added w w')) /\
            forall m, In m (printed (added w w')) -> is_error_report m = false
        | got =>
            printed (added w w') = [MsgTheySaid got] /\
            ReceiveBuffer w' = zeroed /\ bPerformExit w' = false
        end
    end.

(** C4 as the specification states it, for the log of one run: no call on
    the connection is made once [bPerformExit] is set. *)
Definition C4_as_stated (l : list (bool * event)) : Prop :=
  forall e, In (true, e) l -> is_socket_call e = false.

(** C5 as the specification states it, for one pass through the input-ready
    branch: nothing is sent when the line is empty. *)
Definition C5_as_stated (win32 : bool) (env : iter_env) (w : world) : Prop :=
  forall w', input_ready win32 env w = Some w' ->
  cstring (InputBuffer w) = Some [] -> sent (added w w') = [].

(** C6 as the specification states it, for one pass through the input-ready
    branch: a thread is created exactly when the session is still running. *)
Definition C6_as_stated (win32 : bool) (env : iter_env) (w : world) : Prop :=
  forall w', input_ready win32 env w = Some w' ->
  (0 < creates (added w w') <-> bPerformExit w' = false).

End SessionSpec.
Import SessionSpec.

Module ProgramSpec.
Import Program.

Definition step_eqb (a b : step) : bool :=
  match a, b with
  | AskRole, AskRole | CallGetValidPortNo, CallGetValidPortNo
  | CallGetValidIP, CallGetValidIP | CallHostServer, CallHostServer
  | CallConnectToHost, CallConnectToHost | SayConnected, SayConnected
  | SayFailed, SayFailed | CallChat, CallChat
  | CallCloseConnection, CallCloseConnection | SayInvalid, SayInvalid
  | AskEnter, AskEnter => true
  | _, _ => false
  end.

(** What follows the first occurrence of a step. *)
Fixpoint following (x : step) (l : list step) : option (list step) :=
  match l with
  | [] => None
  | y :: r => if step_eqb y x then Some r else following x r
  end.

(** C9 as the specification states it, for one run of [main]: when a session
    has taken place and the connection has been closed, the role is asked
    for again and the process does not exit. *)
Definition C9_as_stated (script : list attempt) : Prop :=
  In CallChat (fst (main script)) ->
  forall l, following CallCloseConnection (fst (main script)) = Some l ->
  In AskRole l /\ snd (main script) <> Exited.

End ProgramSpec.

Module ThreadsSpec.
Import Threads.

Definition all_done (l : list task_pc) : Prop := Forall (fun t => t = TDone) l.

(** The invariant of the hand-off. [shape c ds t]: the threads created so
    far are [ds] followed by [t], the last one created, which the handle
    names; all of [ds] have terminated. *)
Definition shape (c : config) (ds : list task_pc) (t : option task_pc) : Prop :=
  all_done ds /\
  match t with
  | None => tasks c = [] /\ ds = [] /\ InputThread c = None
  | Some t => tasks c = ds ++ [t] /\ InputThread c = Some (length ds)
  end.

(** Where the main thread is against the flag and the threads: no thread
    before the first [pthread_create]; from the return of [pthread_join] to
    the next [pthread_create] every thread has terminated, the flag being
    true until line 318 clears it; [pthread_join] is reached with the flag
    true only. *)
Definition pc_ok (c : config) : Prop :=
  match pc c with
  | LCreate0 => tasks c = [] /\ bHasMessageWaiting c = false
  | LSend | LClear => bHasMessageWaiting c = true /\ all_done (tasks c)
  | LMemset | LCreate => bHasMessageWaiting c = false /\ all_done (tasks c)
  | LJoin => bHasMessageWaiting c = true
  | _ => True
  end.

(** While the flag is true, the last thread is past its assignment to it. *)
Definition flag_ok (c : config) (t : option task_pc) : Prop :=
  bHasMessageWaiting c = true -> t = Some TExit \/ t = Some TDone.

Definition inv (c : config) : Prop :=
  exists ds t, shape c ds t /\ pc_ok c /\ flag_ok c t.

End ThreadsSpec.

(** ** The console input of [main] *)
Module Console.
Import Program.

(** [getchar()]: the next byte of the keyboard stream as an [int], or [EOF]
    at its end. *)
Definition EOF : Z := (-1)%Z.

Definition getchar (stdin : list ascii) : Z * list ascii :=
  match stdin with
  | [] => (EOF, [])
  | c :: r => (Z.of_nat (nat_of_ascii c), r)
  end.

Section Char.

(** Whether plain [char] is a signed type on the platform. *)
Variable char_signed : bool.

(** The value of an [int] stored in a [char], as in [c = getchar()]. *)
Definition to_char (v : Z) : Z :=
  let u := (v mod 256)%Z in
  if char_signed && (128 <=? u)%Z then (u - 256)%Z else u.

(** [ClearInputBuffer], lines 389-392:
<<
    char c;
    while ((c = getchar()) != '\n' && c != EOF);
>>
    The stream that is left; [None] when the loop never ends (at the end of
    the stream [getchar] keeps returning [EOF], which an unsigned [char]
    never equals). *)
Fixpoint ClearInputBuffer (stdin : list ascii) : option (list ascii) :=
  match stdin with
  | [] => if (to_char EOF =? EOF)%Z then Some [] else None
  | c :: r =>
      let ch := to_char (Z.of_nat (nat_of_ascii c)) in
      if (ch =? 10)%Z then Some r
      else if (ch =? EOF)%Z then Some r
      else ClearInputBuffer r
  end.

(** The loop of [main], lines 117-173, up to the assignment of
    [ConnectionMode] in one of the two branches: the role chosen, the
    stream left for the prompts that follow, and how many times "You have
    provided invalid input... try again!" was printed. *)
Fixpoint choose_role (fuel : nat) (stdin : list ascii) (invalid : nat)
  : outcome (mode * list ascii * nat) :=
  match fuel with
  | O => Prompting
  | S fuel' =>
      let InputChar := to_char (fst (getchar stdin)) in
      match ClearInputBuffer (snd (getchar stdin)) with
      | None => Prompting
      | Some rest =>
          if (InputChar =? 49)%Z then Returned (SERVER, rest, invalid)
          else if (InputChar =? 50)%Z then Returned (CLIENT, rest, invalid)
          else
            match ClearInputBuffer rest with
            | None => Prompting
            | Some rest' => choose_role fuel' rest' (S invalid)
            end
      end
  end.

End Char.

(** The bytes at which the loop of [ClearInputBuffer] stops: the newline
    and, where [char] is signed, the byte 255, which [c = getchar()] stores
    as -1, the value of [EOF]. *)
Definition stop_byte (char_signed : bool) (s : ascii) : Prop :=
  s = LF \/ (char_signed = true /\ s = "255"%char).

(** Bytes that [ClearInputBuffer] reads without stopping. *)
Definition no_stop_byte (char_signed : bool) (l : list ascii) : Prop :=
  forall x, In x l -> ~ stop_byte char_signed x.

End Console.

(** ** Setting up and closing the connection *)
Module Net.

(** The calls on the socket library, in the order they are made. *)
Inductive call :=
| WSAStartup
| WSACleanup
| SocketCall                  (* socket(AF_INET, SOCK_STREAM, IPPROTO_TCP) *)
| Bind (h : Z)
| Listen (h : Z)
| Accept (h : Z)
| Connect (h : Z)
| Close (h : Z).

(** The global [ServerSocket] and the calls made so far. *)
Record net := mkNet {
  ServerSocket : Z;
  calls : list call
}.

Definition INVALID_SOCKET : Z := (-1)%Z.

(** What the socket library answers. *)
Record net_env := mkNetEnv {
  startup_error : bool;       (* WSAStartup returns non-zero *)
  version_ok : bool;          (* wsadata.wVersion == 0x0202 *)
  socket_res : Z;             (* the handle socket returns *)
  bind_ok : bool;             (* bind does not return SOCKET_ERROR *)
  accept_res : Z;             (* the handle accept returns *)
  connect_ok : bool           (* connect does not return SOCKET_ERROR *)
}.

Definition did (c : call) (s : net) : net :=
  mkNet (ServerSocket s) (calls s ++ [c]).

Definition set_ServerSocket (h : Z) (s : net) : net := mkNet h (calls s).

Section Build.

Variable win32 : bool.

(** The start of both functions under [_WIN32]: [WSAStartup] and the
    version test; [None] when the function returns false there. *)
Definition startup (env : net_env) (s : net) : option net :=
  if win32 then
    let s := did WSAStartup s in
    if startup_error env then None
    else if version_ok env then Some s
    else None
  else Some s.

(** The state in which the function returns false from [startup]. *)
Definition startup_failed (env : net_env) (s : net) : net :=
  let s := did WSAStartup s in
  if startup_error env then s else did WSACleanup s.

(** [HostServer], lines 227-271. *)
Definition HostServer (env : net_env) (s : net) : bool * net :=
  match startup env s with
  | None => (false, startup_failed env s)
  | Some s =>
      let s := set_ServerSocket (socket_res env) (did SocketCall s) in
      if (ServerSocket s =? INVALID_SOCKET)%Z then (false, s)
      else
        let s := did (Bind (ServerSocket s)) s in
        if negb (bind_ok env) then (false, s)
        else
          let s := did (Listen (ServerSocket s)) s in
          let s := did (Accept (ServerSocket s)) s in
          (true, set_ServerSocket (accept_res env) s)
  end.

(** [ConnectToHost], lines 181-225. *)
Definition ConnectToHost (env : net_env) (s : net) : bool * net :=
  match startup env s with
  | None => (false, startup_failed env s)
  | Some s =>
      let s := set_ServerSocket (socket_res env) (did SocketCall s) in
      if (ServerSocket s =? INVALID_SOCKET)%Z then (false, s)
      else
        let s := did (Connect (ServerSocket s)) s in
        if connect_ok env then (true, s) else (false, s)
  end.

(** [CloseConnection], lines 273-281. *)
Definition CloseConnection (s : net) : net :=
  let s := if (ServerSocket s =? 0)%Z then s else did (Close (ServerSocket s)) s in
  if win32 then did WSACleanup s else s.

(** The socket calls of the server branch of [main], lines 128-140, and of
    its client branch, lines 155-167 ([Chat] makes no call that opens or
    closes a socket and does not assign [ServerSocket]). *)
Definition server_branch (env : net_env) (s : net) : bool * net :=
  (fst (HostServer env s), CloseConnection (snd (HostServer env s))).

Definition client_branch (env : net_env) (s : net) : bool * net :=
  (fst (ConnectToHost env s), CloseConnection (snd (ConnectToHost env s))).

End Build.

(** The state of the program at its start: [ServerSocket] is a global
    without initialiser. *)
Definition boot : net := mkNet 0 [].

(** The handles passed to [close]. *)
Fixpoint closed (l : list call) : list Z :=
  match l with
  | [] => []
  | Close h :: r => h :: closed r
  | _ :: r => closed r
  end.

End Net.

(** ** Further definitions used to state properties *)
Module ExtraSpec.

(** Octets joined by dots: [join_dots [a; b] c] is [a.b.c]. *)
Definition join_dots (os : list (list ascii)) (last_octet : list ascii) : list ascii :=
  fold_right (fun o acc => o ++ dot :: acc) last_octet os.

(** What [GetValidIP] can take for an octet: digits, few enough for
    [LastIPOctet], whose number is stored in an [int] as a value from 0 to
    255. (The number of an empty run is 0.) *)
Definition octet_ok (overflow : int_overflow) (o : list ascii) : Prop :=
  Forall (fun c => isdigit c = true) o /\ length o <= 19 /\
  exists v, as_int overflow (digits 0 o) = Some v /\ (0 <= v <= 255)%Z.

(** The words [GetValidIP] takes for an address: they fit [IPAddressBuffer]
    and are four octets separated by dots, of which only the last may be
    empty. *)
Definition address_form (overflow : int_overflow) (w : list ascii) : Prop :=
  length w + 1 <= 50 /\
  exists o1 o2 o3 o4,
    w = o1 ++ dot :: o2 ++ dot :: o3 ++ dot :: o4 /\
    o1 <> [] /\ o2 <> [] /\ o3 <> [] /\
    octet_ok overflow o1 /\ octet_ok overflow o2 /\
    octet_ok overflow o3 /\ octet_ok overflow o4.

(** What ends the loop of [Chat]: a failure of [send], of [select] or of
    [recv], or a [recv] of no bytes. *)
Definition ends_session (env : iter_env) : Prop :=
  send_ok env = false \/
  (SelectResponse env = -1)%Z \/
  ((SelectResponse env > 0)%Z /\
   (recv_res env = RecvError \/ recv_res env = RecvData [])).

End ExtraSpec.

(** * Facts about C strings *)
Module CStringFacts.

Lemma eqb_NUL_false c l : ~ In NUL (c :: l) -> Ascii.eqb c NUL = false.
Proof.
  intros H. apply Ascii.eqb_neq. intros ->. apply H. now left.
Qed.

Lemma strlen_holds b l : holds b l -> strlen b = Some (length l).
Proof.
  intros [Hn [r ->]]. induction l as [|c l IH]; simpl.
  - reflexivity.
  - rewrite (eqb_NUL_false _ _ Hn). rewrite IH; [reflexivity|].
    intros H. apply Hn. now right.
Qed.

Lemma cstring_holds b l : holds b l -> cstring b = Some l.
Proof.
  intros H. unfold cstring. rewrite (strlen_holds _ _ H).
  destruct H as [_ [r ->]].
  rewrite firstn_app, Nat.sub_diag, firstn_all. simpl.
  now rewrite app_nil_r.
Qed.

Lemma holds_length b l : holds b l -> length l < length b.
Proof.
  intros [_ [r ->]]. rewrite length_app. simpl. lia.
Qed.

Lemma fgets_take_length k s : length (fst (fgets_take k s)) <= k.
Proof.
  revert s. induction k as [|k IH]; intros [|c r]; simpl; try lia.
  destruct (Ascii.eqb c LF); simpl; [lia|].
  specialize (IH r). destruct (fgets_take k r). simpl in *. lia.
Qed.

Lemma fgets_holds b stdin L rest :
  fgets_take 299 stdin = (L, rest) -> L <> [] -> ~ In NUL L ->
  fgets b 300 stdin = (blit (L ++ [NUL]) b, rest) /\ holds (blit (L ++ [NUL]) b) L.
Proof.
  intros Ht Hne Hn. unfold fgets. change (300 - 1) with 299. rewrite Ht.
  split.
  - destruct L; [contradiction|reflexivity].
  - split; [assumption|]. unfold blit. rewrite <- app_assoc. simpl. eauto.
Qed.

End CStringFacts.
Import CStringFacts.

(** * Facts about the keyboard thread *)
Module InputFacts.

Lemma size_sub_succ n :
  (Z.of_nat n < 2 ^ SIZE_WIDTH - 1)%Z -> size_sub (Z.of_nat (S n)) 1 = Z.of_nat n.
Proof.
  intros H. unfold size_sub. rewrite Nat2Z.inj_succ.
  replace (Z.succ (Z.of_nat n) - 1)%Z with (Z.of_nat n) by lia.
  apply Z.mod_small. lia.
Qed.

Lemma load_at l x r : load (l ++ x :: r) (Z.of_nat (length l)) = Some x.
Proof.
  unfold load. rewrite length_app. simpl.
  replace ((0 <=? Z.of_nat (length l)) &&
           (Z.of_nat (length l) <? Z.of_nat (length l + S (length r))))%Z
    with true by (symmetry; apply andb_true_iff; split;
                  [apply Z.leb_le | apply Z.ltb_lt]; lia).
  rewrite Nat2Z.id. rewrite nth_error_app2, Nat.sub_diag by lia. reflexivity.
Qed.

Lemma firstn_at (l : list ascii) r : firstn (length l) (l ++ r) = l.
Proof. induction l; simpl; [now destruct r | now f_equal]. Qed.

Lemma skipn_at (l : list ascii) x r : skipn (S (length l)) (l ++ x :: r) = r.
Proof. induction l; simpl; [reflexivity | assumption]. Qed.

Lemma store_at l x r c :
  store (l ++ x :: r) (Z.of_nat (length l)) c = Some (l ++ c :: r).
Proof.
  unfold store. rewrite length_app.
  replace ((0 <=? Z.of_nat (length l)) &&
           (Z.of_nat (length l) <? Z.of_nat (length l + length (x :: r))))%Z
    with true by (symmetry; apply andb_true_iff; split;
                  [apply Z.leb_le | apply Z.ltb_lt]; simpl; lia).
  now rewrite Nat2Z.id, firstn_at, skipn_at.
Qed.

(** On a string that is not empty, a trimming step is defined and cuts the
    last byte exactly when it is the byte looked for. *)
Lemma trim_last_holds c b l x :
  holds b (l ++ [x]) -> (Z.of_nat (length l) < 2 ^ SIZE_WIDTH - 1)%Z ->
  exists b', trim_last c b = Some b' /\
             holds b' (if Ascii.eqb x c then l else l ++ [x]).
Proof.
  intros H Hlen. unfold trim_last. rewrite (strlen_holds _ _ H).
  destruct H as [Hn [r ->]].
  rewrite length_app. simpl length. rewrite Nat.add_1_r.
  rewrite size_sub_succ by assumption. rewrite <- app_assoc. simpl.
  rewrite load_at. destruct (Ascii.eqb x c).
  - rewrite store_at. eexists. split; [reflexivity|]. split.
    + intros Hin. apply Hn. apply in_or_app. now left.
    + eauto.
  - eexists. split; [reflexivity|]. split; [assumption|].
    exists r. now rewrite <- app_assoc.
Qed.

(** On the empty string, [LastChar] wraps around to [SIZE_MAX] and the
    array is read outside its bounds. *)
Lemma trim_last_empty c b :
  holds b [] -> (Z.of_nat (length b) < 2 ^ SIZE_WIDTH)%Z -> trim_last c b = None.
Proof.
  intros H Hlen. unfold trim_last. rewrite (strlen_holds _ _ H). simpl.
  unfold load. change (size_sub 0 1) with (2 ^ SIZE_WIDTH - 1)%Z.
  replace (2 ^ SIZE_WIDTH - 1 <? Z.of_nat (length b))%Z with false
    by (symmetry; apply Z.ltb_ge; lia).
  now rewrite andb_false_r.
Qed.

Lemma strip_last_snoc c l x :
  Spec.strip_last c (l ++ [x]) = if Ascii.eqb x c then l else l ++ [x].
Proof.
  unfold Spec.strip_last. rewrite rev_app_distr. simpl.
  now rewrite rev_involutive.
Qed.


(** The keyboard thread on a line that [fgets] delivers, that holds no NUL
    and that is not a lone newline: every access is inside the array and
    [InputBuffer] is left holding the line as the specification trims it. *)
Lemma WaitForUserInput_trims stdin b L rest :
  fgets_take 299 stdin = (L, rest) -> L <> [] -> ~ In NUL L -> L <> [LF] ->
  exists b', WaitForUserInput stdin b = Some (b', rest) /\ holds b' (Spec.trimmed L).
Proof.
  intros Ht Hne Hn Hlf.
  assert (Hlen : length L <= 299).
  { pose proof (fgets_take_length 299 stdin) as H. now rewrite Ht in H. }
  destruct (fgets_holds b _ _ _ Ht Hne Hn) as [Hf Hh].
  unfold WaitForUserInput. rewrite Hf.
  destruct (exists_last Hne) as [l [x ->]].
  rewrite length_app in Hlen. simpl in Hlen.
  assert (Hsmall : forall k, k <= 299 -> (Z.of_nat k < 2 ^ SIZE_WIDTH - 1)%Z).
  { intros k Hk. unfold SIZE_WIDTH. lia. }
  destruct (trim_last_holds LF _ l x Hh) as [b1 [E1 H1]]; [apply Hsmall; lia|].
  rewrite E1. unfold Spec.trimmed. rewrite strip_last_snoc.
  destruct (Ascii.eqb x LF) eqn:Ex.
  - apply Ascii.eqb_eq in Ex. subst x.
    assert (Hl : l <> []) by (intros ->; now apply Hlf).
    destruct (exists_last Hl) as [l' [y ->]].
    rewrite length_app in Hlen. simpl in Hlen.
    destruct (trim_last_holds CR _ l' y H1) as [b2 [E2 H2]]; [apply Hsmall; lia|].
    rewrite E2, strip_last_snoc. eauto.
  - destruct (trim_last_holds CR _ l x H1) as [b2 [E2 H2]]; [apply Hsmall; lia|].
    rewrite E2, strip_last_snoc. eauto.
Qed.

(** A lone newline: the first step cuts it, the second reads
    [InputBuffer[SIZE_MAX]]. *)
Lemma WaitForUserInput_newline b rest :
  length b = 300 -> WaitForUserInput (LF :: rest) b = None.
Proof.
  intros Hb. unfold WaitForUserInput, fgets. simpl fgets_take. cbv iota beta.
  assert (Hr : length (skipn 2 b) = 298) by (rewrite length_skipn; lia).
  unfold blit. change (length ([LF] ++ [NUL])) with 2.
  set (r := skipn 2 b) in *.
  change (([LF] ++ [NUL]) ++ r) with (LF :: NUL :: r).
  assert (E : trim_last LF (LF :: NUL :: r) = Some (NUL :: NUL :: r)) by reflexivity.
  rewrite E. rewrite trim_last_empty; [reflexivity| |].
  - split; [intros []|]. exists (NUL :: r). reflexivity.
  - simpl length. rewrite Hr. unfold SIZE_WIDTH. lia.
Qed.

End InputFacts.
Import InputFacts.

(** * Facts about the session loop *)
Module SessionFacts.

Lemma added_ext w w' d : log w' = log w ++ d -> added w w' = d.
Proof.
  intros H. unfold added. rewrite H.
  rewrite skipn_app, Nat.sub_diag, skipn_all. reflexivity.
Qed.

Lemma sent_app l1 l2 : sent (l1 ++ l2) = sent l1 ++ sent l2.
Proof.
  induction l1 as [|[t e] l1 IH]; simpl; [reflexivity|].
  destruct e; simpl; now rewrite ?IH.
Qed.

Lemma late_app l1 l2 :
  late_socket_calls (l1 ++ l2) = late_socket_calls l1 ++ late_socket_calls l2.
Proof.
  unfold late_socket_calls. now rewrite filter_app, map_app.
Qed.

Lemma late_cons x l :
  late_socket_calls (x :: l) =
    (if fst x && is_socket_call (snd x) then [snd x] else []) ++ late_socket_calls l.
Proof.
  unfold late_socket_calls. simpl. now destruct (fst x && is_socket_call (snd x)).
Qed.

(** The keyboard thread logs nothing and leaves [bPerformExit] alone. *)
Lemma thread_finishes_log w w' :
  thread_finishes w = Some w' ->
  log w' = log w /\ bPerformExit w' = bPerformExit w.
Proof.
  unfold thread_finishes. destruct (thread_running w).
  - destruct (WaitForUserInput _ _) as [r|]; [|discriminate].
    intros [= <-]. split; reflexivity.
  - intros [= <-]. split; reflexivity.
Qed.

(** The error report, as a piece of log. *)
Lemma report_error_log win32 env w :
  log (report_error win32 env w) =
    log w ++ (if win32 then [(bPerformExit w, Print (error_message env))] else []) /\
  bPerformExit (report_error win32 env w) = bPerformExit w /\
  bHasMessageWaiting (report_error win32 env w) = bHasMessageWaiting w /\
  InputBuffer (report_error win32 env w) = InputBuffer w /\
  ReceiveBuffer (report_error win32 env w) = ReceiveBuffer w /\
  thread_running (report_error win32 env w) = thread_running w.
Proof.
  unfold report_error, error_message. destruct win32.
  - destruct (last_error env =? WSAECONNRESET)%Z; simpl; repeat split.
  - rewrite app_nil_r. repeat split.
Qed.

(** The input-ready branch, call by call: the join, a [send] of the string
    in [InputBuffer] whatever its length, the error report when [send] fails
    on Windows, and a [pthread_create] whatever [send] returned. *)
Lemma input_ready_log win32 env w n :
  strlen (InputBuffer w) = Some n ->
  exists w', input_ready win32 env w = Some w' /\
    log w' = log w ++
      [(bPerformExit w, Join); (bPerformExit w, Send (firstn n (InputBuffer w)))] ++
      (if send_ok env then []
       else if win32 then [(bPerformExit w, Print (error_message env))] else []) ++
      [(bPerformExit w', Create)] ++
      (if create_ok env then [] else [(bPerformExit w', Print MsgThreadError)]) /\
    bPerformExit w' = (if send_ok env then bPerformExit w else true) /\
    bHasMessageWaiting w' = false /\
    InputBuffer w' = memset0 (InputBuffer w) 300 /\
    ReceiveBuffer w' = ReceiveBuffer w /\
    thread_running w' = (create_ok env || thread_running w).
Proof.
  intros Hs. unfold input_ready. simpl. rewrite Hs.
  eexists. split; [reflexivity|].
  unfold start_thread, report_error, error_message.
  destruct (send_ok env), (create_ok env), win32;
    try destruct (last_error env =? WSAECONNRESET)%Z;
    simpl; rewrite <- ?app_assoc; simpl; repeat split.
Qed.

(** The poll-and-receive step, call by call. *)
Lemma poll_receive_log win32 env w w' :
  poll_receive win32 env w = Some w' ->
  exists prints,
    (log w' = log w ++ (bPerformExit w, Select) :: prints \/
     log w' = log w ++ (bPerformExit w, Select) :: (bPerformExit w, Recv) :: prints) /\
    late_socket_calls prints = [] /\
    (bPerformExit w = true -> bPerformExit w' = true).
Proof.
  assert (Hlate : forall t m, late_socket_calls [(t, Print m)] = []).
  { intros t m. unfold late_socket_calls. simpl. now rewrite andb_false_r. }
  unfold poll_receive, report_error.
  destruct (SelectResponse env =? -1)%Z.
  - intros [= <-].
    destruct win32; [destruct (last_error env =? WSAECONNRESET)%Z|];
      simpl; rewrite <- ?app_assoc; eexists;
      (split; [left; reflexivity|]); (split; [|trivial]);
      first [apply Hlate | reflexivity].
  - destruct (SelectResponse env >? 0)%Z.
    + destruct (recv_res env) as [|bytes].
      * intros [= <-].
        destruct win32; [destruct (last_error env =? WSAECONNRESET)%Z|];
          simpl; rewrite <- ?app_assoc; eexists;
          (split; [right; reflexivity|]); (split; [|trivial]);
          first [apply Hlate | reflexivity].
      * destruct (firstn 300 bytes) as [|c got]; cbv iota.
        -- intros [= <-]. simpl. rewrite <- !app_assoc. eexists.
           split; [right; reflexivity|]. split; [apply Hlate|trivial].
        -- destruct (strlen _); [|discriminate]. intros [= <-]. simpl.
           rewrite <- !app_assoc. eexists.
           split; [right; reflexivity|]. split; [apply Hlate|trivial].
    + intros [= <-]. exists []. simpl.
      split; [left; reflexivity|]. split; [reflexivity|trivial].
Qed.

(** What [fgets] takes when a line shorter than the room is typed: the line
    with its newline. *)
Lemma fgets_take_line k l rest :
  ~ In LF l -> length l < k -> fgets_take k (l ++ LF :: rest) = (l ++ [LF], rest).
Proof.
  revert k. induction l as [|c l IH]; intros k Hn Hk.
  - destruct k; [lia|]. reflexivity.
  - destruct k; [simpl in Hk; lia|]. simpl.
    replace (Ascii.eqb c LF) with false
      by (symmetry; apply Ascii.eqb_neq; intros ->; apply Hn; now left).
    rewrite IH; [reflexivity| |simpl in Hk; lia].
    intros H. apply Hn. now right.
Qed.

(** From the end of the keyboard thread to the [send] of the loop: the
    string the thread leaves in [InputBuffer] is the payload. *)
Lemma handoff win32 env w b' rest' l :
  thread_running w = true ->
  WaitForUserInput (stdin w) (InputBuffer w) = Some (b', rest') ->
  holds b' l ->
  exists w1 w2,
    thread_finishes w = Some w1 /\ stdin w1 = rest' /\
    bHasMessageWaiting w1 = true /\
    input_ready win32 env w1 = Some w2 /\
    sent (added w w2) = [l].
Proof.
  intros Hrun Hw Hh.
  unfold thread_finishes. rewrite Hrun, Hw. cbn [fst snd].
  eexists.
  destruct (input_ready_log win32 env
              (set_thread_running false
                 (set_bHasMessageWaiting true
                    (set_stdin rest' (set_InputBuffer b' w))))
              (length l)) as [w2 [Hi [Hlog _]]].
  { cbn [InputBuffer set_thread_running set_bHasMessageWaiting set_stdin
         set_InputBuffer]. now apply strlen_holds. }
  exists w2. split; [reflexivity|]. split; [reflexivity|]. split; [reflexivity|].
  split; [exact Hi|].
  cbn [log InputBuffer bPerformExit set_thread_running set_bHasMessageWaiting
       set_stdin set_InputBuffer] in Hlog.
  rewrite (added_ext _ _ _ Hlog).
  destruct Hh as [_ [r ->]]. rewrite firstn_at.
  destruct (send_ok env), (create_ok env), win32; reflexivity.
Qed.

(** A line of 1 to 298 bytes, typed with its newline. *)
Lemma typed_line_sent_aux win32 env w l rest :
  thread_running w = true ->
  stdin w = l ++ LF :: rest ->
  l <> [] -> ~ In LF l -> ~ In NUL l -> length l <= 298 ->
  exists w1 w2,
    thread_finishes w = Some w1 /\ stdin w1 = rest /\
    bHasMessageWaiting w1 = true /\
    input_ready win32 env w1 = Some w2 /\
    sent (added w w2) = [Spec.strip_last CR l].
Proof.
  intros Hrun Hin Hne Hlf Hnul Hlen.
  assert (Ht : fgets_take 299 (stdin w) = (l ++ [LF], rest)).
  { rewrite Hin. apply fgets_take_line; [assumption|lia]. }
  destruct (WaitForUserInput_trims (stdin w) (InputBuffer w) (l ++ [LF]) rest Ht)
    as [b' [Hw Hh]].
  - destruct l; discriminate.
  - intros H. apply in_app_or in H. destruct H as [H|[H|[]]]; [auto|discriminate H].
  - destruct l as [|c [|c' l]]; [contradiction|discriminate|discriminate].
  - unfold Spec.trimmed in Hh. rewrite strip_last_snoc in Hh.
    change (Ascii.eqb LF LF) with true in Hh. cbv iota in Hh.
    exact (handoff win32 env w b' rest _ Hrun Hw Hh).
Qed.

End SessionFacts.
Import SessionFacts.

(** * The keyboard thread in a flat address space *)
Module FlatFacts.






End FlatFacts.
Import FlatFacts.

(** * The claims about the session loop *)
Module SessionClaims.

Lemma skipn_repeat_NUL n m : skipn n (repeat NUL m) = repeat NUL (m - n).
Proof.
  revert m. induction n as [|n IH]; intros [|m]; simpl; auto.
Qed.

(** Fewer than 300 bytes without a NUL, received into a cleared
    [ReceiveBuffer], are a string there, and clearing [strlen] bytes clears
    the whole array again. *)
Lemma blit_zeroed bytes :
  length bytes < 300 -> ~ In NUL bytes ->
  holds (blit bytes zeroed) bytes /\
  memset0 (blit bytes zeroed) (length bytes) = zeroed.
Proof.
  intros Hlen Hn. unfold blit, zeroed, BUFSZ. rewrite skipn_repeat_NUL.
  destruct (300 - length bytes) as [|k] eqn:Hk; [lia|].
  split.
  - split; [assumption|]. exists (repeat NUL k). reflexivity.
  - unfold memset0. rewrite skipn_app, Nat.sub_diag, skipn_all.
    change ([] ++ skipn 0 (repeat NUL (S k))) with (repeat NUL (S k)).
    rewrite length_app, repeat_length.
    replace (Nat.min (length bytes) (length bytes + S k)) with (length bytes) by lia.
    rewrite <- repeat_app. f_equal. lia.
Qed.

(** The line the keyboard thread leaves is what the loop sends: for a line
    that [fgets] delivers, that holds no NUL and is not a lone newline, the
    thread finishes, and the next pass through the input-ready branch makes
    one [send], of the line as the specification trims it. *)
Lemma transmitted_line win32 env w L rest :
  thread_running w = true ->
  fgets_take 299 (stdin w) = (L, rest) -> L <> [] -> ~ In NUL L -> L <> [LF] ->
  exists w1 w2,
    thread_finishes w = Some w1 /\ bHasMessageWaiting w1 = true /\
    input_ready win32 env w1 = Some w2 /\
    sent (added w w2) = [Spec.trimmed L].
Proof.
  intros Hrun Ht Hne Hn Hlf.
  destruct (WaitForUserInput_trims (stdin w) (InputBuffer w) L rest Ht Hne Hn Hlf)
    as [b' [Hw Hh]].
  unfold thread_finishes. rewrite Hrun, Hw. cbn [fst snd].
  eexists. 
  destruct (input_ready_log win32 env
              (set_thread_running false
                 (set_bHasMessageWaiting true
                    (set_stdin rest (set_InputBuffer b' w))))
              (length (Spec.trimmed L))) as [w2 [Hi [Hlog _]]].
  { cbn [InputBuffer set_thread_running set_bHasMessageWaiting set_stdin
         set_InputBuffer]. now apply strlen_holds. }
  exists w2. split; [reflexivity|]. split; [reflexivity|]. split; [exact Hi|].
  cbn [log InputBuffer bPerformExit set_thread_running set_bHasMessageWaiting
       set_stdin set_InputBuffer] in Hlog.
  rewrite (added_ext _ _ _ Hlog).
  destruct Hh as [_ [r ->]]. rewrite firstn_at.
  destruct (send_ok env), (create_ok env), win32; reflexivity.
Qed.

(** The example of the specification: the keyboard line "hello\r\n" is
    transmitted as the bytes "hello". *)
Lemma transmitted_hello :
  exists w', Chat true true [line_typed] (entry (text "hello" ++ [CR; LF])) = Some (w', false) /\
             sent (log w') = [text "hello"].
Proof.
  eexists. split; vm_compute; reflexivity.
Qed.




(** C2 (the failing input): for a lone newline the trimming of
    [WaitForUserInput] leaves the 300-byte array. The first step is defined
    and leaves the empty string; the index [strlen - 1] of the second step is
    then [SIZE_MAX], where the array has no element, and the function is
    undefined. The same happens at once when [fgets] reads nothing into an
    empty buffer. *)
Theorem C2_trim_leaves_array b rest :
  length b = 300 ->
  (exists b1, trim_last LF (fst (fgets b 300 (LF :: rest))) = Some b1 /\
              strlen b1 = Some 0 /\
              load b1 (size_sub (Z.of_nat 0) 1) = None) /\
  WaitForUserInput (LF :: rest) b = None /\
  (holds b [] -> WaitForUserInput [] b = None).
Proof.
  intros Hb.
  assert (Hr : length (skipn 2 b) = 298) by (rewrite length_skipn; lia).
  split; [|split].
  - exists (NUL :: NUL :: skipn 2 b). unfold fgets. simpl fgets_take. cbv iota beta.
    unfold blit. change (length ([LF] ++ [NUL])) with 2. cbn [fst].
    set (r := skipn 2 b) in *.
    split; [reflexivity|]. split; [reflexivity|].
    unfold load. simpl length. rewrite Hr. reflexivity.
  - now apply WaitForUserInput_newline.
  - intros Hh. unfold WaitForUserInput, fgets. simpl fgets_take. cbv iota beta.
    rewrite trim_last_empty; [reflexivity|assumption|].
    rewrite Hb. unfold SIZE_WIDTH. lia.
Qed.

Lemma C2_trim_leaves_array_witness :
  length zeroed = 300 /\
  WaitForUserInput [LF] zeroed = None.
Proof.
  split; [reflexivity|].
  exact (proj1 (proj2 (C2_trim_leaves_array zeroed [] eq_refl))).
Defined.

(** C3 (as the specification states it) fails: a build without [_WIN32]
    leaves the loop on a receive error without printing anything; bytes
    received with a NUL among them are shown only up to the NUL while the
    bytes after it stay in [ReceiveBuffer]; and 300 bytes without a NUL fill
    the array, so that [printf] and [strlen] run past its end. *)
Lemma C3_counterexample :
  ~ C3_as_stated false recv_fails (entry []) /\
  ~ C3_as_stated true recv_nul (entry []) /\
  ~ C3_as_stated true recv_full (entry []).
Proof.
  split; [|split]; intros H.
  - destruct (H eq_refl eq_refl) as [w' [Hp Hrest]].
    vm_compute in Hp. injection Hp as <-.
    destruct Hrest as [_ [m [Hin _]]]. vm_compute in Hin. exact Hin.
  - destruct (H eq_refl eq_refl) as [w' [Hp Hrest]].
    vm_compute in Hp. injection Hp as <-.
    destruct Hrest as [Hpr _]. vm_compute in Hpr. discriminate Hpr.
  - destruct (H eq_refl eq_refl) as [w' [Hp _]].
    vm_compute in Hp. discriminate Hp.
Qed.

(** C3 (amended): when [select] reports data in a running session, a receive
    error sets [bPerformExit] and is reported on Windows builds only (as a
    reset or with its code); a receive of no bytes sets [bPerformExit] and
    prints "Other party quit!" and nothing else; fewer than 300 bytes without
    a NUL, received into a cleared [ReceiveBuffer], are printed as they are
    after "They said: ", the buffer is cleared again, and the session stays
    running. *)
Theorem C3_receive_outcomes win32 env w :
  bPerformExit w = false -> (SelectResponse env > 0)%Z ->
  match recv_res env with
  | RecvError =>
      exists w', poll_receive win32 env w = Some w' /\
        bPerformExit w' = true /\
        printed (added w w') = (if win32 then [error_message env] else [])
  | RecvData [] =>
      exists w', poll_receive win32 env w = Some w' /\
        bPerformExit w' = true /\ printed (added w w') = [MsgPeerQuit]
  | RecvData bytes =>
      ReceiveBuffer w = zeroed -> length bytes < 300 -> ~ In NUL bytes ->
      exists w', poll_receive win32 env w = Some w' /\
        printed (added w w') = [MsgTheySaid bytes] /\
        ReceiveBuffer w' = zeroed /\ bPerformExit w' = false
  end.
Proof.
  intros Hrun Hsel. unfold poll_receive.
  replace (SelectResponse env =? -1)%Z with false by (symmetry; apply Z.eqb_neq; lia).
  replace (SelectResponse env >? 0)%Z with true by (symmetry; apply Z.gtb_gt; lia).
  destruct (recv_res env) as [|bytes].
  - eexists. split; [reflexivity|]. split; [reflexivity|].
    destruct (report_error_log win32 env (emit Recv (emit Select w))) as [Hl _].
    erewrite added_ext.
    2:{ cbn [log set_bPerformExit]. rewrite Hl. simpl. rewrite <- !app_assoc. reflexivity. }
    destruct win32; reflexivity.
  - destruct bytes as [|c bytes].
    + eexists. split; [reflexivity|]. split; [reflexivity|].
      erewrite added_ext; [|simpl; rewrite <- !app_assoc; reflexivity]. reflexivity.
    + intros Hzero Hlen Hn.
      destruct (blit_zeroed (c :: bytes) Hlen Hn) as [Hh Hm].
      rewrite firstn_all2 by lia. cbv iota.
      cbn [ReceiveBuffer emit]. rewrite Hzero, (strlen_holds _ _ Hh).
      eexists. split; [reflexivity|]. split; [|split].
      * erewrite added_ext.
        2:{ cbn [log set_ReceiveBuffer emit]. rewrite <- !app_assoc. reflexivity. }
        destruct Hh as [_ [r Hr]]. rewrite Hr, firstn_at. reflexivity.
      * cbn [ReceiveBuffer set_ReceiveBuffer]. exact Hm.
      * cbn [bPerformExit set_ReceiveBuffer emit]. exact Hrun.
Qed.

Lemma C3_receive_outcomes_witness :
  exists w', poll_receive true send_fails (entry []) = Some w' /\
    printed (added (entry []) w') = [MsgTheySaid (text "hi")] /\
    ReceiveBuffer w' = zeroed /\ bPerformExit w' = false.
Proof.
  apply (C3_receive_outcomes true send_fails (entry [])).
  - reflexivity.
  - reflexivity.
  - reflexivity.
  - simpl. lia.
  - intros [H|[H|[]]]; discriminate H.
Defined.

(** One pass through the loop body in a running session: calls on the
    connection are made with [bPerformExit] set only when [send] has just
    failed, and then they are the [select] of this pass and its [recv]. *)
Lemma Chat_iteration_late win32 env w w' :
  bPerformExit w = false -> Chat_iteration win32 env w = Some w' ->
  exists d, log w' = log w ++ d /\
    (late_socket_calls d = [] \/
     send_ok env = false /\ bPerformExit w' = true /\
     (late_socket_calls d = [Select] \/ late_socket_calls d = [Select; Recv])).
Proof.
  intros Hrun. unfold Chat_iteration.
  assert (H1 : forall w1, (if thread_done env then thread_finishes w else Some w) = Some w1 ->
                          log w1 = log w /\ bPerformExit w1 = false).
  { intros w1. destruct (thread_done env).
    - intros H. apply thread_finishes_log in H. destruct H as [-> ->]. now split.
    - intros [= <-]. now split. }
  destruct (if thread_done env then thread_finishes w else Some w) as [w1|];
    [|discriminate].
  destruct (H1 w1 eq_refl) as [Hl1 He1]. clear H1.
  destruct (bHasMessageWaiting w1).
  - destruct (strlen (InputBuffer w1)) as [n|] eqn:Hs.
    + destruct (input_ready_log win32 env w1 n Hs) as [w2 [Hi [Hl2 [He2 _]]]].
      rewrite Hi. intros Hp.
      destruct (poll_receive_log win32 env w2 w' Hp) as [prints [Hl3 [Hpr Hmono]]].
      rewrite He1 in *. rewrite Hl1 in Hl2.
      assert (Hmid : forall (t t' b1 b2 : bool) m1 m2 tl,
                late_socket_calls
                  ([(false, Join); (false, Send (firstn n (InputBuffer w1)))] ++
                   (if b1 then [] else if b2 then [(false, Print m1)] else []) ++
                   [(t, Create)] ++
                   (if t' then @nil (bool * event) else [(t, Print m2)]) ++ tl) =
                late_socket_calls tl).
      { intros t t' b1 b2 m1 m2 tl. unfold late_socket_calls.
        destruct b1, b2, t, t'; reflexivity. }
      destruct Hl3 as [Hl3|Hl3]; rewrite Hl3, Hl2, <- !app_assoc;
        eexists; (split; [reflexivity|]); rewrite Hmid;
        destruct (send_ok env); rewrite He2 in *;
        rewrite !late_cons, Hpr; cbn [fst snd is_socket_call andb app];
        first [ left; reflexivity
              | right; split; [reflexivity|]; split; [now apply Hmono|];
                first [left; reflexivity | right; reflexivity] ].
    + unfold input_ready. simpl. rewrite Hs. discriminate.
  - intros Hp.
    destruct (poll_receive_log win32 env w1 w' Hp) as [prints [Hl3 [Hpr _]]].
    rewrite He1, Hl1 in Hl3.
    destruct Hl3 as [Hl3|Hl3]; rewrite Hl3; eexists; (split; [reflexivity|]); left;
      rewrite !late_cons, Hpr; reflexivity.
Qed.

(** The same for the whole loop: it is left at the end of the pass that sets
    [bPerformExit]. *)
Lemma Chat_loop_late win32 envs : forall w w' b,
  bPerformExit w = false -> Chat_loop win32 envs w = Some (w', b) ->
  (b = true -> bPerformExit w' = true) /\
  exists d, log w' = log w ++ d /\
    (late_socket_calls d = [] \/
     (exists env, In env envs /\ send_ok env = false) /\
     (late_socket_calls d = [Select] \/ late_socket_calls d = [Select; Recv])).
Proof.
  induction envs as [|env envs IH]; intros w w' b Hrun; simpl.
  - intros [= <- <-]. split; [discriminate|]. exists []. rewrite app_nil_r. auto.
  - destruct (Chat_iteration win32 env w) as [w1|] eqn:Hit; [|discriminate].
    destruct (Chat_iteration_late win32 env w w1 Hrun Hit) as [d1 [Hl1 Hd1]].
    destruct (bPerformExit w1) eqn:He1.
    + intros [= <- <-]. split; [auto|]. exists d1. split; [assumption|].
      destruct Hd1 as [Hd1|[Hs [_ Hd1]]]; [now left|right].
      split; [exists env; split; [now left|assumption]|assumption].
    + intros Hloop. destruct (IH w1 w' b He1 Hloop) as [Hb [d2 [Hl2 Hd2]]].
      split; [assumption|]. exists (d1 ++ d2). rewrite Hl2, Hl1, app_assoc.
      split; [reflexivity|]. rewrite late_app.
      destruct Hd1 as [Hd1|[_ [Habs _]]]; [|congruence]. rewrite Hd1. simpl.
      destruct Hd2 as [Hd2|[[e [Hin Hs]] Hd2]]; [now left|right].
      split; [exists e; split; [now right|assumption]|assumption].
Qed.

(** A pass that sets [bPerformExit] is the last one: the rest of the script
    is not run, so nothing is tried again. *)
Lemma failure_is_terminal win32 env envs w w' :
  Chat_iteration win32 env w = Some w' -> bPerformExit w' = true ->
  Chat_loop win32 (env :: envs) w = Some (w', true).
Proof.
  intros Hit He. simpl. now rewrite Hit, He.
Qed.

(** A failure of [select], of [recv] or of [send] sets [bPerformExit], and
    so does a [recv] of no bytes. *)
Lemma failure_sets_bPerformExit win32 env w w' :
  poll_receive win32 env w = Some w' ->
  (SelectResponse env = -1)%Z \/
  ((SelectResponse env > 0)%Z /\
   (recv_res env = RecvError \/ recv_res env = RecvData [])) ->
  bPerformExit w' = true.
Proof.
  unfold poll_receive. intros Hp [Hs|[Hs Hr]].
  - rewrite Hs in Hp. simpl in Hp. now injection Hp as <-.
  - replace (SelectResponse env =? -1)%Z with false in Hp
      by (symmetry; apply Z.eqb_neq; lia).
    replace (SelectResponse env >? 0)%Z with true in Hp
      by (symmetry; apply Z.gtb_gt; lia).
    destruct Hr as [Hr|Hr]; rewrite Hr in Hp; simpl in Hp; now injection Hp as <-.
Qed.

(** C4 (as the specification states it) fails: [send] fails, [bPerformExit]
    is set, and the same pass still calls [select] and [recv]. *)
Lemma C4_counterexample :
  Chat true true [send_fails] (entry (text "x" ++ [LF])) = Some (after_failed_send, true) /\
  In (true, Select) (log after_failed_send) /\
  In (true, Recv) (log after_failed_send) /\
  ~ C4_as_stated (log after_failed_send).
Proof.
  split; [vm_compute; reflexivity|].
  assert (Hsel : In (true, Select) (log after_failed_send)) by (simpl; tauto).
  split; [exact Hsel|]. split; [simpl; tauto|].
  intros H. apply H in Hsel. discriminate Hsel.
Qed.

(** The poll-and-receive step, call by call: [select] is always called,
    [recv] exactly when [select] reports data. *)
Lemma poll_receive_calls win32 env w w' :
  poll_receive win32 env w = Some w' ->
  exists prints,
    log w' = log w ++ (bPerformExit w, Select) ::
               (if (SelectResponse env >? 0)%Z then [(bPerformExit w, Recv)] else [])
               ++ prints /\
    late_socket_calls prints = [].
Proof.
  assert (Hlate : forall t m, late_socket_calls [(t, Print m)] = []).
  { intros t m. unfold late_socket_calls. simpl. now rewrite andb_false_r. }
  unfold poll_receive, report_error.
  destruct (SelectResponse env =? -1)%Z eqn:E1.
  - apply Z.eqb_eq in E1. rewrite E1. change (-1 >? 0)%Z with false. cbv iota.
    intros [= <-].
    destruct win32; [destruct (last_error env =? WSAECONNRESET)%Z|];
      simpl; rewrite <- ?app_assoc; eexists;
      (split; [reflexivity|]); first [apply Hlate | reflexivity].
  - destruct (SelectResponse env >? 0)%Z.
    + destruct (recv_res env) as [|bytes].
      * intros [= <-].
        destruct win32; [destruct (last_error env =? WSAECONNRESET)%Z|];
          simpl; rewrite <- ?app_assoc; eexists;
          (split; [reflexivity|]); first [apply Hlate | reflexivity].
      * destruct (firstn 300 bytes) as [|c got]; cbv iota.
        -- intros [= <-]. simpl. rewrite <- !app_assoc. eexists.
           split; [reflexivity|]. apply Hlate.
        -- destruct (strlen _); [|discriminate]. intros [= <-]. simpl.
           rewrite <- !app_assoc. eexists.
           split; [reflexivity|]. apply Hlate.
    + intros [= <-]. exists []. simpl. split; reflexivity.
Qed.

(** The first step of a pass: whether the input-ready branch is taken. *)
Lemma thread_step env w w1 :
  (if thread_done env then thread_finishes w else Some w) = Some w1 ->
  log w1 = log w /\ bPerformExit w1 = bPerformExit w /\
  bHasMessageWaiting w1 = takes_input env w.
Proof.
  unfold takes_input, thread_finishes. destruct (thread_done env).
  - destruct (thread_running w).
    + destruct (WaitForUserInput _ _) as [r|]; [|discriminate].
      intros [= <-]. cbn. now rewrite orb_true_r.
    + intros [= <-]. now rewrite orb_false_r.
  - intros [= <-]. now rewrite orb_false_r.
Qed.

(** One pass through the loop body in a running session, exactly: when the
    pass goes through the input-ready branch and [send] fails, [select] is
    called with [bPerformExit] set, and [recv] after it when [select]
    reports data; in every other pass no call on the connection is made with
    [bPerformExit] set. *)
Lemma Chat_iteration_calls win32 env w w' :
  bPerformExit w = false -> Chat_iteration win32 env w = Some w' ->
  exists d, log w' = log w ++ d /\
    late_socket_calls d =
      if takes_input env w && negb (send_ok env)
      then Select :: (if (SelectResponse env >? 0)%Z then [Recv] else [])
      else [].
Proof.
  intros Hrun. unfold Chat_iteration.
  destruct (if thread_done env then thread_finishes w else Some w) as [w1|] eqn:Hth;
    [|discriminate].
  destruct (thread_step env w w1 Hth) as [Hl1 [He1 Hf1]].
  rewrite <- Hf1. rewrite Hrun in He1.
  destruct (bHasMessageWaiting w1).
  - destruct (strlen (InputBuffer w1)) as [n|] eqn:Hs.
    + destruct (input_ready_log win32 env w1 n Hs) as [w2 [Hi [Hl2 [He2 _]]]].
      rewrite Hi. intros Hp.
      destruct (poll_receive_calls win32 env w2 w' Hp) as [prints [Hl3 Hpr]].
      rewrite He1 in *. rewrite Hl1 in Hl2.
      assert (Hmid : forall (t t' b1 b2 : bool) m1 m2 tl,
                late_socket_calls
                  ([(false, Join); (false, Send (firstn n (InputBuffer w1)))] ++
                   (if b1 then [] else if b2 then [(false, Print m1)] else []) ++
                   [(t, Create)] ++
                   (if t' then @nil (bool * event) else [(t, Print m2)]) ++ tl) =
                late_socket_calls tl).
      { intros t t' b1 b2 m1 m2 tl. unfold late_socket_calls.
        destruct b1, b2, t, t'; reflexivity. }
      rewrite Hl3, Hl2, <- !app_assoc.
      eexists. split; [reflexivity|]. rewrite Hmid.
      rewrite late_cons, late_app, Hpr, app_nil_r. rewrite He2.
      destruct (send_ok env), (SelectResponse env >? 0)%Z; reflexivity.
    + unfold input_ready. simpl. rewrite Hs. discriminate.
  - intros Hp.
    destruct (poll_receive_calls win32 env w1 w' Hp) as [prints [Hl3 Hpr]].
    rewrite He1, Hl1 in Hl3. rewrite Hl3.
    eexists. split; [reflexivity|].
    rewrite late_cons, late_app, Hpr.
    destruct (SelectResponse env >? 0)%Z; reflexivity.
Qed.

(** While the loop is not left, no call is made with [bPerformExit] set. *)
Lemma Chat_loop_running win32 envs : forall w w',
  bPerformExit w = false -> Chat_loop win32 envs w = Some (w', false) ->
  bPerformExit w' = false /\
  exists d, log w' = log w ++ d /\ late_socket_calls d = [].
Proof.
  induction envs as [|env envs IH]; intros w w' Hrun; simpl.
  - intros [= <-]. split; [assumption|]. exists []. now rewrite app_nil_r.
  - destruct (Chat_iteration win32 env w) as [w1|] eqn:Hit; [|discriminate].
    destruct (bPerformExit w1) eqn:He1; [discriminate|].
    intros Hloop. destruct (IH w1 w' He1 Hloop) as [He [d2 [Hl2 Hd2]]].
    split; [assumption|].
    destruct (Chat_iteration_late win32 env w w1 Hrun Hit) as [d1 [Hl1 Hd1]].
    exists (d1 ++ d2). rewrite Hl2, Hl1, app_assoc. split; [reflexivity|].
    rewrite late_app, Hd2, app_nil_r.
    destruct Hd1 as [Hd1|[_ [Habs _]]]; [assumption|congruence].
Qed.

(** The pass in which the loop is left: the passes before it leave
    [bPerformExit] clear, and the rest of the script is not run. *)
Lemma Chat_loop_last win32 envs : forall w w',
  bPerformExit w = false -> Chat_loop win32 envs w = Some (w', true) ->
  exists pre env post w0,
    envs = pre ++ env :: post /\
    Chat_loop win32 pre w = Some (w0, false) /\
    Chat_iteration win32 env w0 = Some w' /\ bPerformExit w' = true.
Proof.
  induction envs as [|env envs IH]; intros w w' Hrun; simpl; [discriminate|].
  destruct (Chat_iteration win32 env w) as [w1|] eqn:Hit; [|discriminate].
  destruct (bPerformExit w1) eqn:He1.
  - intros [= <-]. exists [], env, envs, w. repeat split; assumption.
  - intros Hloop.
    destruct (IH w1 w' He1 Hloop) as (pre & env' & post & w0 & -> & Hpre & Hlast & He).
    exists (env :: pre), env', post, w0. split; [reflexivity|].
    split; [|split; assumption]. simpl. now rewrite Hit, He1.
Qed.

(** C4 (amended): in every run of [Chat], the loop is left at the end of the
    pass that sets [bPerformExit], and no [send] is made once it is set.
    When the pass in which the loop is left has gone through the input-ready
    branch and [send] has failed, that pass still calls [select] and, when
    [select] reports data, [recv]; these are the only calls on the
    connection made with [bPerformExit] set. When [select] or [recv] sets
    it, no call follows. *)
Theorem C4_calls_after_terminating win32 create0_ok envs w w' b :
  Chat win32 create0_ok envs w = Some (w', b) ->
  (b = true -> bPerformExit w' = true) /\
  (late_socket_calls (added w w') = [] \/
   (exists env, In env envs /\ send_ok env = false) /\
   (late_socket_calls (added w w') = [Select] \/
    late_socket_calls (added w w') = [Select; Recv])) /\
  (b = false -> late_socket_calls (added w w') = []) /\
  (b = true ->
   exists pre env post w0,
     envs = pre ++ env :: post /\
     Chat win32 create0_ok pre w = Some (w0, false) /\
     bPerformExit w0 = false /\
     Chat_iteration win32 env w0 = Some w' /\
     late_socket_calls (added w w') =
       if takes_input env w0 && negb (send_ok env)
       then Select :: (if (SelectResponse env >? 0)%Z then [Recv] else [])
       else []).
Proof.
  unfold Chat.
  set (w00 := start_thread create0_ok
                (emit (Print MsgConnected)
                   (set_bHasMessageWaiting false (set_bPerformExit false w)))).
  assert (Hrun : bPerformExit w00 = false).
  { unfold w00, start_thread. destruct create0_ok; reflexivity. }
  assert (Hstart : exists pre0, log w00 = log w ++ pre0 /\ late_socket_calls pre0 = []).
  { unfold w00, start_thread. destruct create0_ok; simpl; rewrite <- !app_assoc.
    - exists [(false, Print MsgConnected); (false, Create)]. split; reflexivity.
    - exists [(false, Print MsgConnected); (false, Create);
              (false, Print MsgThreadError)]. split; reflexivity. }
  destruct Hstart as [pre0 [Hl0 Hpre0]].
  assert (Hadd : forall v d, log v = log w00 ++ d ->
            late_socket_calls (added w v) = late_socket_calls d).
  { intros v d Hv. rewrite Hl0, <- app_assoc in Hv.
    rewrite (added_ext _ _ _ Hv), late_app, Hpre0. reflexivity. }
  intros H.
  destruct (Chat_loop_late win32 envs w00 w' b Hrun H) as [Hb [d [Hl Hd]]].
  split; [assumption|]. split; [rewrite (Hadd _ _ Hl); exact Hd|].
  split.
  - intros ->.
    destruct (Chat_loop_running win32 envs w00 w' Hrun H) as [_ [d' [Hl' Hd']]].
    now rewrite (Hadd _ _ Hl').
  - intros ->.
    destruct (Chat_loop_last win32 envs w00 w' Hrun H)
      as (pre & env & post & w0 & Henvs & Hpre & Hlast & He).
    destruct (Chat_loop_running win32 pre w00 w0 Hrun Hpre) as [He0 [d0 [Hl0' Hd0]]].
    destruct (Chat_iteration_calls win32 env w0 w' He0 Hlast) as [d1 [Hl1 Hd1]].
    exists pre, env, post, w0. split; [assumption|]. split; [exact Hpre|].
    split; [assumption|]. split; [assumption|].
    assert (Hv : log w' = log w00 ++ (d0 ++ d1)).
    { rewrite Hl1, Hl0', app_assoc. reflexivity. }
    rewrite (Hadd _ _ Hv), late_app, Hd0. exact Hd1.
Qed.

Lemma C4_calls_after_terminating_witness :
  Chat true true [send_fails] (entry (text "x" ++ [LF])) = Some (after_failed_send, true) /\
  bPerformExit after_failed_send = true /\
  late_socket_calls (added (entry (text "x" ++ [LF])) after_failed_send) = [Select; Recv].
Proof.
  assert (E : Chat true true [send_fails] (entry (text "x" ++ [LF]))
              = Some (after_failed_send, true)) by (vm_compute; reflexivity).
  split; [exact E|].
  destruct (C4_calls_after_terminating true true [send_fails]
              (entry (text "x" ++ [LF])) after_failed_send true E)
    as [Hb [[H|[_ [H|H]]] _]].
  - vm_compute in H. discriminate H.
  - vm_compute in H. discriminate H.
  - split; [exact (Hb eq_refl)|exact H].
Defined.

(** C5 (as the specification states it) fails: the user types a carriage
    return and a newline, the line left in [InputBuffer] is empty, and
    [send] is called all the same, with length 0; when that call fails the
    session ends on the empty line. *)
Lemma C5_counterexample :
  thread_finishes (start_thread true (emit (Print MsgConnected) (entry [CR; LF])))
    = Some after_crlf /\
  cstring (InputBuffer after_crlf) = Some [] /\
  sent (log after_crlf) = [] /\
  (exists w', input_ready true quiet after_crlf = Some w' /\ sent (log w') = [[]]) /\
  (exists w', input_ready true send_fails after_crlf = Some w' /\
              sent (log w') = [[]] /\ bPerformExit w' = true) /\
  ~ C5_as_stated true quiet after_crlf.
Proof.
  split; [vm_compute; reflexivity|]. split; [reflexivity|]. split; [reflexivity|].
  split; [eexists; split; vm_compute; reflexivity|].
  split; [eexists; split; [vm_compute; reflexivity|split; reflexivity]|].
  intros H. specialize (H _ eq_refl eq_refl). vm_compute in H. discriminate H.
Qed.

(** C5 (amended): the input-ready branch always calls [send], once, with the
    string [InputBuffer] holds as payload, whatever its length: for an empty
    line it is a [send] of no bytes. *)
Theorem C5_send_whatever_length win32 env w l :
  holds (InputBuffer w) l ->
  exists w', input_ready win32 env w = Some w' /\ sent (added w w') = [l].
Proof.
  intros Hh.
  destruct (input_ready_log win32 env w (length l) (strlen_holds _ _ Hh))
    as [w' [Hi [Hlog _]]].
  exists w'. split; [assumption|]. rewrite (added_ext _ _ _ Hlog).
  destruct Hh as [_ [r ->]]. rewrite firstn_at.
  destruct (send_ok env), (create_ok env), win32; reflexivity.
Qed.

Lemma C5_send_whatever_length_witness :
  holds (InputBuffer after_crlf) [] /\
  exists w', input_ready true quiet after_crlf = Some w' /\
             sent (added after_crlf w') = [[]].
Proof.
  assert (H : holds (InputBuffer after_crlf) []).
  { split; [intros []|]. exists (tl (InputBuffer after_crlf)). reflexivity. }
  split; [exact H|]. exact (C5_send_whatever_length true quiet after_crlf [] H).
Defined.

(** C6 (as the specification states it) fails: [send] fails, [bPerformExit]
    is set, and [pthread_create] is called all the same. *)
Lemma C6_counterexample :
  (exists w', input_ready true send_fails after_crlf = Some w' /\
              bPerformExit w' = true /\ In (true, Create) (log w')) /\
  ~ C6_as_stated true send_fails after_crlf.
Proof.
  split.
  - eexists. split; [vm_compute; reflexivity|]. split; [reflexivity|].
    vm_compute. tauto.
  - intros H. specialize (H _ eq_refl). vm_compute in H.
    destruct H as [H _]. discriminate (H (le_n 1)).
Qed.

(** C6 (amended): after consuming an input line the loop always calls
    [pthread_create], once, whether [send] failed or not; when [send] failed
    the call is made with [bPerformExit] already set. *)
Theorem C6_thread_always_restarted win32 env w n :
  strlen (InputBuffer w) = Some n ->
  exists w', input_ready win32 env w = Some w' /\
    creates (added w w') = 1 /\
    In (bPerformExit w', Create) (added w w') /\
    bPerformExit w' = (if send_ok env then bPerformExit w else true) /\
    bHasMessageWaiting w' = false /\
    InputBuffer w' = memset0 (InputBuffer w) 300.
Proof.
  intros Hs.
  destruct (input_ready_log win32 env w n Hs) as [w' [Hi [Hlog [He [Hf [Hb _]]]]]].
  exists w'. split; [assumption|]. rewrite (added_ext _ _ _ Hlog).
  split; [|split; [|split; [|split]]]; try assumption.
  - destruct (send_ok env), (create_ok env), win32; reflexivity.
  - destruct (send_ok env), (create_ok env), win32; simpl; tauto.
Qed.

Lemma C6_thread_always_restarted_witness :
  strlen (InputBuffer after_crlf) = Some 0 /\
  exists w', input_ready true send_fails after_crlf = Some w' /\
             creates (added after_crlf w') = 1 /\ bPerformExit w' = true.
Proof.
  split; [reflexivity|].
  destruct (C6_thread_always_restarted true send_fails after_crlf 0 eq_refl)
    as [w' [Hi [Hc [_ [He _]]]]].
  exists w'. split; [exact Hi|]. split; [exact Hc|exact He].
Defined.

End SessionClaims.

(** * The claims about the prompts *)
Module PromptClaims.

(** The test of [GetValidPortNo] on a line whose number fits an [int]: the
    port is taken exactly when it is above 0 and below 65535. *)
Lemma port_test_spec overflow b s v :
  cstring b = Some s -> parse_int s = Some v -> (INT_MIN <= v <= INT_MAX)%Z ->
  port_test overflow b = Some (if ((v <? 65535) && (v >? 0))%Z then Some v else None).
Proof.
  intros Hc Hp Hr. unfold port_test, as_int. rewrite Hc, Hp.
  replace ((INT_MIN <=? v) && (v <=? INT_MAX))%Z with true.
  - now destruct ((v <? 65535) && (v >? 0))%Z.
  - symmetry. apply andb_true_iff. split; apply Z.leb_le; lia.
Qed.

(** Whatever is typed, a port that [GetValidPortNo] returns is between 1
    and 65534. *)
Lemma GetValidPortNo_range overflow fuel : forall retries stdin b a,
  GetValidPortNo overflow fuel retries stdin b = Returned a ->
  (1 <= PortNo a <= 65534)%Z.
Proof.
  induction fuel as [|fuel IH]; intros retries stdin b a; simpl; [discriminate|].
  destruct (fgets b 300 stdin) as [b' rest].
  destruct (port_test overflow b') as [[p|]|] eqn:Ht; try discriminate.
  - intros [= <-]. simpl. unfold port_test in Ht.
    destruct (cstring b'); [|discriminate].
    destruct (parse_int l); [|discriminate].
    destruct (as_int overflow z); [|discriminate].
    destruct ((z0 <? 65535) && (z0 >? 0))%Z eqn:Hr; [|discriminate].
    injection Ht as <-. apply andb_true_iff in Hr. destruct Hr as [H1 H2].
    apply Z.ltb_lt in H1. apply Z.gtb_gt in H2. lia.
  - apply IH.
Qed.

(** C7 (the failing input): the line "65535". The prompt of
    [GetValidPortNo] asks for a port number "(1-65535)" and the claim has
    65535 accepted; the test [*PortNo < 65535] refuses it and the prompt is
    shown again. The other inputs the claim lists are treated as it says.
    (None of these numbers leaves the range of [int], so this holds whatever
    the library does on overflow.) *)
Theorem C7_port_65535_refused overflow :
  port_test overflow (typed_line "65535") = Some None /\
  (exists a, GetValidPortNo overflow 2 0
               (text "65535" ++ [LF] ++ text "8080" ++ [LF]) zeroed
               = Returned a /\ PortNo a = 8080%Z /\ port_retries a = 1) /\
  port_test overflow (typed_line "1") = Some (Some 1%Z) /\
  port_test overflow (typed_line "65534") = Some (Some 65534%Z) /\
  port_test overflow (typed_line "8080") = Some (Some 8080%Z) /\
  port_test overflow (typed_line "-5") = Some None /\
  port_test overflow (typed_line "abc") = Some None.
Proof.
  split; [vm_compute; reflexivity|].
  split; [eexists; split; [vm_compute; reflexivity|split; reflexivity]|].
  repeat split; vm_compute; reflexivity.
Qed.

(** C8 (the failing input): the line "1.2.3.". The loop of [GetValidIP]
    refuses an empty octet only when a dot ends it; the octet after the last
    dot is tested with [atoi] alone, which reads the empty string as 0, and
    three dots are counted, so the address is taken, where the claim (and
    the comment "Invalid if the user has not provided 4 octets") has it
    refused. The other inputs the claim lists are treated as it says.
    (No octet here leaves the range of [int], so this holds whatever the
    library does on overflow.) *)
Theorem C8_empty_last_octet_accepted overflow :
  ip_test overflow (typed_line "1.2.3.") = Some (Some (text "1.2.3.")) /\
  (exists a, GetValidIP overflow 1 0 (text "1.2.3." ++ [LF]) zeroed = Returned a /\
             IPAddress a = text "1.2.3." /\ ip_retries a = 0) /\
  ip_test overflow (typed_line "1.2.3") = Some None /\
  ip_test overflow (typed_line "1.2.3.4.5") = Some None /\
  ip_test overflow (typed_line "1.2.256.4") = Some None /\
  ip_test overflow (typed_line "1..2.3") = Some None /\
  ip_test overflow (typed_line "0.0.0.0") = Some (Some (text "0.0.0.0")) /\
  ip_test overflow (typed_line "255.255.255.255") = Some (Some (text "255.255.255.255")).
Proof.
  split; [vm_compute; reflexivity|].
  split; [eexists; split; [vm_compute; reflexivity|split; reflexivity]|].
  repeat split; vm_compute; reflexivity.
Qed.

End PromptClaims.

(** * The claim about [main] *)
Module ProgramClaims.
Import Program ProgramSpec.

(** Once a role is chosen the loop of [main] is left. *)
Lemma main_loop_chosen script m done :
  m <> UNSET -> main_loop script m done = (done ++ [AskEnter], Exited).
Proof.
  intros Hm. destruct script, m; try reflexivity; contradiction.
Qed.

Lemma following_app x pre l :
  following x pre = None -> following x (pre ++ l) = following x l.
Proof.
  induction pre as [|y pre IH]; simpl; [reflexivity|].
  destruct (step_eqb y x); [discriminate|assumption].
Qed.

Lemma main_loop_after_chat script : forall done l,
  following CallChat done = None ->
  following CallChat (fst (main_loop script UNSET done)) = Some l ->
  (l = [] /\ snd (main_loop script UNSET done) = InChat) \/
  (l = [CallCloseConnection; AskEnter] /\ snd (main_loop script UNSET done) = Exited).
Proof.
  induction script as [|a script IH]; intros done l Hd; simpl.
  - rewrite following_app by assumption. discriminate.
  - destruct (Ascii.eqb (InputChar a) "1"); [|destruct (Ascii.eqb (InputChar a) "2")].
    + unfold after_connect.
      destruct (bConnectionSuccess a); [destruct (session_ends a)|];
        rewrite ?main_loop_chosen by discriminate; simpl;
        rewrite <- ?app_assoc, following_app by assumption; simpl;
        intros [= <-]; auto.
    + unfold after_connect.
      destruct (bConnectionSuccess a); [destruct (session_ends a)|];
        rewrite ?main_loop_chosen by discriminate; simpl;
        rewrite <- ?app_assoc, following_app by assumption; simpl;
        intros [= <-]; auto.
    + apply IH. rewrite <- app_assoc, following_app by assumption. reflexivity.
Qed.

(** C9 (as the specification states it) fails: the user chooses the server
    role, the connection is accepted and the session ends; [main] closes the
    connection, asks for Enter and returns, although more input is waiting;
    the role is asked for once. *)
Lemma C9_counterexample :
  main [mkAttempt "1" true true; mkAttempt "2" true true] =
    ([AskRole; CallGetValidPortNo; CallHostServer; SayConnected; CallChat;
      CallCloseConnection; AskEnter], Exited) /\
  ~ C9_as_stated [mkAttempt "1" true true; mkAttempt "2" true true].
Proof.
  split; [reflexivity|].
  intros H.
  destruct (H (or_intror (or_intror (or_intror (or_intror (or_introl eq_refl)))))
              [AskEnter] eq_refl) as [_ Hexit].
  apply Hexit. reflexivity.
Qed.

(** C9 (amended): once [Chat] has been called, either the session is still
    going on, or it has ended, for whatever reason, and all [main] has done
    since is to close the connection and to ask for Enter before it returns:
    the role is not asked for again. *)
Theorem C9_exit_after_session script l :
  following CallChat (fst (main script)) = Some l ->
  (l = [] /\ snd (main script) = InChat) \/
  (l = [CallCloseConnection; AskEnter] /\ snd (main script) = Exited).
Proof.
  apply main_loop_after_chat. reflexivity.
Qed.

Lemma C9_exit_after_session_witness :
  following CallChat (fst (main [mkAttempt "x" true true; mkAttempt "2" true true;
                                 mkAttempt "1" true true]))
    = Some [CallCloseConnection; AskEnter] /\
  snd (main [mkAttempt "x" true true; mkAttempt "2" true true;
             mkAttempt "1" true true]) = Exited.
Proof.
  split; [reflexivity|].
  destruct (C9_exit_after_session
              [mkAttempt "x" true true; mkAttempt "2" true true;
               mkAttempt "1" true true] _ eq_refl) as [[H _]|[_ H]].
  - discriminate H.
  - exact H.
Defined.

End ProgramClaims.

(** * The claim about the hand-off *)
Module ThreadsClaims.
Import Threads ThreadsSpec.

Lemma nth_error_last (ds : list task_pc) t :
  nth_error (ds ++ [t]) (length ds) = Some t.
Proof. induction ds; simpl; auto. Qed.

Lemma update_last (ds : list task_pc) t t' :
  update (ds ++ [t]) (length ds) t' = ds ++ [t'].
Proof. induction ds; simpl; [reflexivity | now f_equal]. Qed.

(** A thread that can move is the last one created. *)
Lemma mover_is_last ds t i t0 t1 :
  all_done ds -> nth_error (ds ++ [t]) i = Some t0 -> next t0 = Some t1 ->
  i = length ds /\ t0 = t.
Proof.
  intros Hd. revert i. induction Hd as [|d ds Hd0 Hd IH]; intros i Hn Hx.
  - destruct i as [|i]; simpl in *.
    + injection Hn as <-. auto.
    + destruct i; discriminate.
  - destruct i as [|i]; simpl in *.
    + injection Hn as <-. subst d. discriminate.
    + destruct (IH i Hn Hx) as [-> ->]. auto.
Qed.

Lemma all_done_snoc ds t : all_done ds -> t = TDone -> all_done (ds ++ [t]).
Proof.
  intros Hd Ht. apply Forall_app. split; [assumption|]. now constructor.
Qed.

Lemma all_done_last ds t : all_done (ds ++ [t]) -> t = TDone.
Proof.
  intros H. apply Forall_app in H. destruct H as [_ H]. now inversion H.
Qed.

Lemma inv_init : inv init.
Proof.
  exists [], None. split; [|split].
  - split; [constructor|]. simpl. auto.
  - split; reflexivity.
  - intros H. discriminate H.
Qed.

(** Every step of either thread keeps the invariant. *)
Lemma inv_step a c c' : inv c -> step a c = Some c' -> inv c'.
Proof.
  intros [ds [t [[Hds Hsh] [Hpc Hfl]]]] Hstep.
  unfold pc_ok in Hpc. unfold flag_ok in Hfl.
  destruct a as [ok|i]; simpl in Hstep.
  - destruct (pc c) eqn:Epc.
    + (* LCreate0 *)
      destruct Hpc as [Ht Hf]. injection Hstep as <-. unfold spawn.
      destruct ok.
      * exists [], (Some TFgets). rewrite Ht. split; [|split].
        -- split; [constructor|]. simpl. auto.
        -- exact I.
        -- intros H. simpl in H. congruence.
      * exists ds, t. split; [|split].
        -- split; assumption.
        -- exact I.
        -- intros H. simpl in H. congruence.
    + (* LTest *)
      injection Hstep as <-. exists ds, t. split; [|split].
      * split; assumption.
      * unfold pc_ok, goto. simpl. destruct (bHasMessageWaiting c) eqn:E; simpl; auto.
      * exact Hfl.
    + (* LJoin *)
      assert (Hall : all_done (tasks c)).
      { destruct (Hfl Hpc) as [-> | ->]; destruct Hsh as [Ht Hi];
          rewrite Hi, Ht, nth_error_last in Hstep; simpl in Hstep;
          [discriminate|]. rewrite Ht. now apply all_done_snoc. }
      assert (Hc : c' = goto LSend c).
      { destruct (InputThread c); [|congruence].
        destruct (nth_error (tasks c) n); [|discriminate].
        destruct (is_done t0); [congruence|discriminate]. }
      subst c'. exists ds, t. split; [|split].
      * split; assumption.
      * split; assumption.
      * exact Hfl.
    + (* LSend *)
      injection Hstep as <-. exists ds, t. split; [|split].
      * split; assumption.
      * exact Hpc.
      * exact Hfl.
    + (* LClear *)
      injection Hstep as <-. exists ds, t. split; [|split].
      * split; assumption.
      * split; [reflexivity|]. apply Hpc.
      * intros H. discriminate H.
    + (* LMemset *)
      injection Hstep as <-. exists ds, t. split; [|split].
      * split; assumption.
      * exact Hpc.
      * exact Hfl.
    + (* LCreate *)
      destruct Hpc as [Hf Hall]. injection Hstep as <-. unfold spawn.
      destruct ok.
      * exists (tasks c), (Some TFgets). split; [|split].
        -- split; [assumption|]. simpl. auto.
        -- exact I.
        -- intros H. simpl in H. congruence.
      * exists ds, t. split; [|split].
        -- split; assumption.
        -- exact I.
        -- exact Hfl.
    + (* LPoll *)
      injection Hstep as <-. exists ds, t. split; [|split].
      * split; assumption.
      * exact I.
      * exact Hfl.
    + (* LWhile *)
      injection Hstep as <-. exists ds, t. split; [|split].
      * split; assumption.
      * unfold pc_ok, goto. simpl. now destruct (bPerformExit c).
      * exact Hfl.
    + discriminate.
  - destruct (nth_error (tasks c) i) as [t0|] eqn:En; [|discriminate].
    destruct (next t0) as [t1|] eqn:Ex; [|discriminate].
    injection Hstep as <-.
    destruct t as [t|].
    2:{ destruct Hsh as [Ht _]. rewrite Ht in En. destruct i; discriminate. }
    destruct Hsh as [Ht Hi]. rewrite Ht in En.
    destruct (mover_is_last _ _ _ _ _ Hds En Ex) as [-> ->].
    assert (Hnd : ~ all_done (tasks c)).
    { intros H. rewrite Ht in H. apply all_done_last in H. subst t. discriminate. }
    exists ds, (Some t1). split; [|split].
    + split; [assumption|]. simpl. rewrite Ht, update_last. auto.
    + unfold pc_ok. simpl.
      destruct (pc c); try exact I; try (exfalso; apply Hnd; apply Hpc).
      * destruct Hpc as [Hpc _]. rewrite Ht in Hpc. destruct ds; discriminate.
      * rewrite Hpc. now destruct t.
    + intros H. simpl in H.
      destruct t; simpl in Ex; try discriminate; injection Ex as <-; auto;
        destruct (Hfl H) as [H'|H']; discriminate.
Qed.

Lemma inv_run sched : forall c c', inv c -> run sched c = Some c' -> inv c'.
Proof.
  induction sched as [|a sched IH]; intros c c' Hinv; simpl.
  - now intros [= <-].
  - destruct (step a c) as [c1|] eqn:Es; [|discriminate].
    apply IH. exact (inv_step _ _ _ Hinv Es).
Qed.

Lemma active_done ds : all_done ds -> filter (fun t => negb (is_done t)) ds = [].
Proof.
  induction 1 as [|d ds Hd _ IH]; simpl; [reflexivity|]. subst d. exact IH.
Qed.

(** C10: in every configuration that an interleaving of the steps of [Chat]
    and of the keyboard threads reaches,
    - when the main thread is about to read or write [InputBuffer] (lines
      306 and 319), every thread created has terminated, and at line 306 the
      flag is true: the buffer is read only after the flag was seen true and
      the thread joined;
    - when the flag is true, no thread can still write [InputBuffer]: a
      thread sets the flag after its last write;
    - at most one thread has not terminated;
    - a step changes the flag only from false to true, made by a thread at
      line 384, or from true to false, made by the main thread at line 318
      with every thread terminated. *)
Theorem C10_flag_and_join sched c :
  run sched init = Some c ->
  (loop_uses_buffer (pc c) = true -> all_done (tasks c)) /\
  (pc c = LSend -> bHasMessageWaiting c = true) /\
  (bHasMessageWaiting c = true -> Forall (fun t => may_write t = false) (tasks c)) /\
  active c <= 1 /\
  (forall a c', step a c = Some c' ->
     bHasMessageWaiting c' <> bHasMessageWaiting c ->
     (exists i, a = Task i /\ nth_error (tasks c) i = Some TSetFlag /\
                bHasMessageWaiting c = false /\ bHasMessageWaiting c' = true) \/
     (exists ok, a = Loop ok /\ pc c = LClear /\ all_done (tasks c) /\
                 bHasMessageWaiting c = true /\ bHasMessageWaiting c' = false)).
Proof.
  intros Hrun.
  destruct (inv_run sched init c inv_init Hrun) as [ds [t [[Hds Hsh] [Hpc Hfl]]]].
  unfold pc_ok in Hpc. unfold flag_ok in Hfl.
  split; [|split; [|split; [|split]]].
  - destruct (pc c); try discriminate; intros _; apply Hpc.
  - intros E. rewrite E in Hpc. apply Hpc.
  - intros Hf. destruct (Hfl Hf) as [-> | ->]; destruct Hsh as [-> _];
      apply Forall_app; (split; [|now constructor]);
      (eapply Forall_impl; [|exact Hds]); intros x ->; reflexivity.
  - unfold active. destruct t as [t|]; destruct Hsh as [-> _]; simpl; [|lia].
    rewrite filter_app, (active_done _ Hds). simpl.
    destruct (negb (is_done t)); simpl; lia.
  - intros a c' Hstep Hne. destruct a as [ok|i]; simpl in Hstep.
    + right. exists ok. split; [reflexivity|].
      destruct (pc c) eqn:Epc; try discriminate;
        try (injection Hstep as <-; exfalso; apply Hne; unfold spawn, goto;
             simpl; try destruct ok; reflexivity).
      * exfalso. apply Hne.
        destruct (InputThread c); [|injection Hstep as <-; reflexivity].
        destruct (nth_error (tasks c) n); [|discriminate].
        destruct (is_done t0); [injection Hstep as <-; reflexivity|discriminate].
      * injection Hstep as <-. destruct Hpc as [Hf Hall]. simpl. auto.
    + left. exists i. split; [reflexivity|].
      destruct (nth_error (tasks c) i) as [t0|] eqn:En; [|discriminate].
      destruct (next t0) as [t1|] eqn:Ex; [|discriminate].
      injection Hstep as <-. simpl in Hne. simpl.
      destruct t0; try (exfalso; apply Hne; reflexivity).
      split; [reflexivity|].
      destruct (bHasMessageWaiting c); [exfalso; apply Hne; reflexivity|auto].
Qed.

Lemma C10_flag_and_join_witness :
  run [Loop true; Task 0; Task 0; Task 0; Task 0; Loop true; Task 0; Loop true]
      init
    = Some (mkConfig LSend true false [TDone] (Some 0)) /\
  all_done [TDone] /\ active (mkConfig LSend true false [TDone] (Some 0)) <= 1.
Proof.
  assert (E : run [Loop true; Task 0; Task 0; Task 0; Task 0; Loop true; Task 0;
                   Loop true] init
              = Some (mkConfig LSend true false [TDone] (Some 0))) by reflexivity.
  split; [exact E|].
  destruct (C10_flag_and_join _ _ E) as [H1 [_ [_ [H4 _]]]].
  split; [exact (H1 eq_refl)|exact H4].
Defined.

End ThreadsClaims.

(** * Further properties of the keyboard thread and of the session loop *)
Module SessionExtras.
Import ExtraSpec.



(** The two trimming steps on an array that holds a string which is neither
    empty nor a lone newline. *)
Lemma trims_holds b L :
  holds b L -> L <> [] -> L <> [LF] -> length L <= 300 ->
  exists b2, (b1 <- trim_last LF b ;; trim_last CR b1) = Some b2 /\
             holds b2 (Spec.trimmed L).
Proof.
  intros Hh Hne Hlf Hlen.
  assert (Hsmall : forall k, k <= 300 -> (Z.of_nat k < 2 ^ SIZE_WIDTH - 1)%Z).
  { intros k Hk. unfold SIZE_WIDTH. lia. }
  destruct (exists_last Hne) as [l [x ->]].
  rewrite length_app in Hlen. simpl in Hlen.
  destruct (trim_last_holds LF _ l x Hh) as [b1 [E1 H1]]; [apply Hsmall; lia|].
  rewrite E1. unfold Spec.trimmed. rewrite strip_last_snoc.
  destruct (Ascii.eqb x LF) eqn:Ex.
  - apply Ascii.eqb_eq in Ex. subst x.
    assert (Hl : l <> []) by (intros ->; now apply Hlf).
    destruct (exists_last Hl) as [l' [y ->]].
    rewrite length_app in Hlen. simpl in Hlen.
    destruct (trim_last_holds CR _ l' y H1) as [b2 [E2 H2]]; [apply Hsmall; lia|].
    rewrite E2, strip_last_snoc. eauto.
  - destruct (trim_last_holds CR _ l x H1) as [b2 [E2 H2]]; [apply Hsmall; lia|].
    rewrite E2, strip_last_snoc. eauto.
Qed.

(** X1: the user types a line of 1 to 298 bytes, without NUL, and presses
    Enter. The keyboard thread takes the line and its newline off the
    keyboard stream and leaves the rest; the loop then makes one [send],
    whose payload is the line without its newline and without one carriage
    return at its end, if there is one. *)
Theorem typed_line_sent win32 env w l rest :
  thread_running w = true ->
  stdin w = l ++ LF :: rest ->
  l <> [] -> ~ In LF l -> ~ In NUL l -> length l <= 298 ->
  exists w1 w2,
    thread_finishes w = Some w1 /\ stdin w1 = rest /\
    bHasMessageWaiting w1 = true /\
    input_ready win32 env w1 = Some w2 /\
    sent (added w w2) = [Spec.strip_last CR l].
Proof. exact (typed_line_sent_aux win32 env w l rest). Qed.

Lemma typed_line_sent_witness :
  exists w1 w2,
    thread_finishes (start_thread true (entry (text "hi" ++ CR :: LF :: text "yo"))) = Some w1 /\
    stdin w1 = text "yo" /\
    bHasMessageWaiting w1 = true /\
    input_ready true quiet w1 = Some w2 /\
    sent (added (start_thread true (entry (text "hi" ++ CR :: LF :: text "yo"))) w2)
      = [text "hi"].
Proof.
  apply (typed_line_sent true quiet
           (start_thread true (entry (text "hi" ++ CR :: LF :: text "yo")))
           (text "hi" ++ [CR]) (text "yo")).
  - reflexivity.
  - reflexivity.
  - discriminate.
  - intros [H|[H|[H|[]]]]; discriminate H.
  - intros [H|[H|[H|[]]]]; discriminate H.
  - simpl. lia.
Defined.





Lemma strlen_none l : ~ In NUL l -> strlen l = None.
Proof.
  induction l as [|c l IH]; intros Hn; simpl; [reflexivity|].
  rewrite (eqb_NUL_false _ _ Hn). rewrite IH; [reflexivity|].
  intros H. apply Hn. now right.
Qed.

(** X5: a chunk that fills [ReceiveBuffer]. When [recv] stores 300 bytes
    and none of them is NUL, the array holds no terminator and the [printf]
    of line 362 reads past its end: the behaviour is undefined. *)
Theorem full_chunk_overruns win32 env w bytes :
  (SelectResponse env > 0)%Z -> recv_res env = RecvData bytes ->
  300 <= length bytes -> ~ In NUL (firstn 300 bytes) ->
  length (ReceiveBuffer w) = 300 ->
  poll_receive win32 env w = None.
Proof.
  intros Hsel Hr Hlen Hn Hb. unfold poll_receive.
  replace (SelectResponse env =? -1)%Z with false by (symmetry; apply Z.eqb_neq; lia).
  replace (SelectResponse env >? 0)%Z with true by (symmetry; apply Z.gtb_gt; lia).
  rewrite Hr.
  assert (Hg : length (firstn 300 bytes) = 300) by (rewrite length_firstn; lia).
  destruct (firstn 300 bytes) as [|c got]; [discriminate Hg|]. cbv iota.
  cbn [ReceiveBuffer emit]. unfold blit. rewrite Hg.
  rewrite skipn_all2 by lia. rewrite app_nil_r.
  rewrite (strlen_none _ Hn). reflexivity.
Qed.

Lemma full_chunk_overruns_witness :
  poll_receive true recv_full (entry []) = None.
Proof.
  apply (full_chunk_overruns true recv_full (entry []) (repeat "a"%char 300)).
  - reflexivity.
  - reflexivity.
  - rewrite repeat_length. apply le_n.
  - rewrite firstn_all2 by (rewrite repeat_length; apply le_n).
    intros H. apply repeat_spec in H. discriminate H.
  - apply repeat_length.
Defined.

Lemma strip_last_incl c l x : In x (Spec.strip_last c l) -> In x l.
Proof.
  destruct l as [|y l] using rev_ind; [auto|].
  rewrite strip_last_snoc. destruct (Ascii.eqb y c); [|auto].
  intros H. apply in_or_app. now left.
Qed.

Lemma strip_last_length c l : length (Spec.strip_last c l) <= length l.
Proof.
  destruct l as [|y l] using rev_ind; [auto|].
  rewrite strip_last_snoc, length_app. destruct (Ascii.eqb y c); [lia|].
  rewrite length_app. lia.
Qed.

(** A chunk of text received into a cleared [ReceiveBuffer]. *)
Lemma poll_receive_text win32 env w bytes :
  (SelectResponse env > 0)%Z -> recv_res env = RecvData bytes ->
  bytes <> [] -> length bytes < 300 -> ~ In NUL bytes ->
  ReceiveBuffer w = zeroed ->
  exists w', poll_receive win32 env w = Some w' /\
    printed (added w w') = [MsgTheySaid bytes] /\
    ReceiveBuffer w' = zeroed /\ bPerformExit w' = bPerformExit w.
Proof.
  intros Hsel Hr Hne Hlen Hn Hz. unfold poll_receive.
  replace (SelectResponse env =? -1)%Z with false by (symmetry; apply Z.eqb_neq; lia).
  replace (SelectResponse env >? 0)%Z with true by (symmetry; apply Z.gtb_gt; lia).
  rewrite Hr. destruct (SessionClaims.blit_zeroed bytes Hlen Hn) as [Hh Hm].
  rewrite firstn_all2 by lia.
  destruct bytes as [|c bytes]; [contradiction|]. cbv iota.
  cbn [ReceiveBuffer emit]. rewrite Hz, (strlen_holds _ _ Hh).
  eexists. split; [reflexivity|]. split; [|split].
  - erewrite added_ext.
    2:{ cbn [log set_ReceiveBuffer emit]. rewrite <- !app_assoc. reflexivity. }
    destruct Hh as [_ [r Hr']]. rewrite Hr', firstn_at. reflexivity.
  - cbn [ReceiveBuffer set_ReceiveBuffer]. exact Hm.
  - reflexivity.
Qed.

(** X6: from one keyboard to the other screen. When the user of one program
    types a line (1 to 298 bytes, no NUL) that is not empty once trimmed,
    and the bytes that program sends reach the [recv] of the other in one
    piece while its [ReceiveBuffer] is clear, the other program prints "They
    said: " followed by exactly the trimmed line and clears its buffer
    again. *)
Theorem line_round_trip win_s env_s ws l rest win_r env_r wr :
  thread_running ws = true ->
  stdin ws = l ++ LF :: rest ->
  ~ In LF l -> ~ In NUL l -> length l <= 298 ->
  Spec.strip_last CR l <> [] ->
  ReceiveBuffer wr = zeroed -> (SelectResponse env_r > 0)%Z ->
  exists w1 w2 payload,
    thread_finishes ws = Some w1 /\
    input_ready win_s env_s w1 = Some w2 /\
    sent (added ws w2) = [payload] /\
    (recv_res env_r = RecvData payload ->
     exists wr', poll_receive win_r env_r wr = Some wr' /\
       printed (added wr wr') = [MsgTheySaid (Spec.strip_last CR l)] /\
       ReceiveBuffer wr' = zeroed).
Proof.
  intros Hrun Hin Hlf Hnul Hlen Hne Hz Hsel.
  assert (Hl : l <> []) by (intros ->; now apply Hne).
  destruct (typed_line_sent_aux win_s env_s ws l rest Hrun Hin Hl Hlf Hnul Hlen)
    as [w1 [w2 [H1 [_ [_ [H3 H4]]]]]].
  exists w1, w2, (Spec.strip_last CR l).
  split; [assumption|]. split; [assumption|]. split; [assumption|].
  intros Hr.
  destruct (poll_receive_text win_r env_r wr (Spec.strip_last CR l) Hsel Hr Hne)
    as [wr' [Hp [Hpr [Hb _]]]]; [| |assumption|].
  - pose proof (strip_last_length CR l). lia.
  - intros H. apply Hnul. exact (strip_last_incl _ _ _ H).
  - exists wr'. auto.
Qed.

Lemma line_round_trip_witness :
  exists w1 w2 payload,
    thread_finishes (start_thread true (entry (text "hi" ++ CR :: LF :: text "yo")))
      = Some w1 /\
    input_ready true quiet w1 = Some w2 /\
    sent (added (start_thread true (entry (text "hi" ++ CR :: LF :: text "yo"))) w2)
      = [payload] /\
    (recv_res send_fails = RecvData payload ->
     exists wr', poll_receive false send_fails (entry []) = Some wr' /\
       printed (added (entry []) wr')
         = [MsgTheySaid (Spec.strip_last CR (text "hi" ++ [CR]))] /\
       ReceiveBuffer wr' = zeroed).
Proof.
  apply (line_round_trip true quiet
           (start_thread true (entry (text "hi" ++ CR :: LF :: text "yo")))
           (text "hi" ++ [CR]) (text "yo") false send_fails (entry [])).
  - reflexivity.
  - reflexivity.
  - intros [H|[H|[H|[]]]]; discriminate H.
  - intros [H|[H|[H|[]]]]; discriminate H.
  - simpl. lia.
  - discriminate.
  - reflexivity.
  - reflexivity.
Defined.

(** What the poll-and-receive step leaves alone: it sends nothing, starts
    no thread, and does not touch the flag, [InputBuffer] or the keyboard. *)
Lemma poll_receive_frame win32 env w w' :
  poll_receive win32 env w = Some w' ->
  thread_running w' = thread_running w /\
  bHasMessageWaiting w' = bHasMessageWaiting w /\
  exists d, log w' = log w ++ d /\ sent d = [] /\ creates d = 0.
Proof.
  unfold poll_receive, report_error.
  destruct (SelectResponse env =? -1)%Z.
  - intros [= <-].
    destruct win32; [destruct (last_error env =? WSAECONNRESET)%Z|];
      simpl; rewrite <- ?app_assoc; (split; [reflexivity|]);
      (split; [reflexivity|]); eexists; (split; [reflexivity|]);
      split; reflexivity.
  - destruct (SelectResponse env >? 0)%Z.
    + destruct (recv_res env) as [|bytes].
      * intros [= <-].
        destruct win32; [destruct (last_error env =? WSAECONNRESET)%Z|];
          simpl; rewrite <- ?app_assoc; (split; [reflexivity|]);
          (split; [reflexivity|]); eexists; (split; [reflexivity|]);
          split; reflexivity.
      * destruct (firstn 300 bytes) as [|c got]; cbv iota.
        -- intros [= <-]. simpl. rewrite <- !app_assoc.
           split; [reflexivity|]. split; [reflexivity|].
           eexists. split; [reflexivity|]. split; reflexivity.
        -- destruct (strlen _); [|discriminate]. intros [= <-]. simpl.
           rewrite <- !app_assoc.
           split; [reflexivity|]. split; [reflexivity|].
           eexists. split; [reflexivity|]. split; reflexivity.
    + intros [= <-]. simpl. split; [reflexivity|]. split; [reflexivity|].
      exists [(bPerformExit w, Select)]. split; [reflexivity|]. split; reflexivity.
Qed.

(** Why the poll-and-receive step sets [bPerformExit]. *)
Lemma poll_receive_exit win32 env w w' :
  poll_receive win32 env w = Some w' -> bPerformExit w' = true ->
  bPerformExit w = true \/ ends_session env.
Proof.
  unfold poll_receive, ends_session.
  destruct (SelectResponse env =? -1)%Z eqn:E1.
  - intros _ _. right. right. left. now apply Z.eqb_eq.
  - destruct (SelectResponse env >? 0)%Z eqn:E2.
    + apply Z.gtb_gt in E2.
      destruct (recv_res env) as [|bytes] eqn:Er.
      * intros _ _. right. right. right. split; [lia|]. now left.
      * destruct bytes as [|c bytes].
        -- intros _ _. right. right. right. split; [lia|]. now right.
        -- rewrite (firstn_cons 299). cbv iota.
           destruct (strlen _); [|discriminate]. intros [= <-]. simpl. auto.
    + intros [= <-]. simpl. auto.
Qed.

(** One pass of the loop in a running session, with the flag false at its
    start as the loop leaves it: what it sends, which thread is left, and
    why it ends the session if it does. *)
Lemma Chat_iteration_pass win32 env w w' :
  bHasMessageWaiting w = false ->
  Chat_iteration win32 env w = Some w' ->
  bHasMessageWaiting w' = false /\
  (thread_running w = true -> create_ok env = true -> thread_running w' = true) /\
  (bPerformExit w = false -> bPerformExit w' = true -> ends_session env) /\
  exists d, log w' = log w ++ d /\
            length (sent d) <= (if thread_done env then 1 else 0).
Proof.
  intros Hflag. unfold Chat_iteration.
  destruct (thread_done env) eqn:Etd.
  - unfold thread_finishes. destruct (thread_running w) eqn:Erun.
    + destruct (WaitForUserInput (stdin w) (InputBuffer w)) as [r|]; [|discriminate].
      cbn [bHasMessageWaiting set_thread_running set_bHasMessageWaiting].
      set (w1 := set_thread_running false
                   (set_bHasMessageWaiting true
                      (set_stdin (snd r) (set_InputBuffer (fst r) w)))).
      destruct (strlen (InputBuffer w1)) as [n|] eqn:Hs.
      2:{ unfold input_ready. cbn [InputBuffer emit]. rewrite Hs. discriminate. }
      destruct (input_ready_log win32 env w1 n Hs)
        as [w2 [Hi [Hl2 [He2 [Hf2 [_ [_ Hr2]]]]]]].
      rewrite Hi. intros Hp.
      destruct (poll_receive_frame win32 env w2 w' Hp) as [Hr3 [Hf3 [d3 [Hl3 [Hs3 _]]]]].
      split; [congruence|]. split; [|split].
      * intros _ Hc. rewrite Hr3, Hr2, Hc. reflexivity.
      * intros He He'.
        destruct (poll_receive_exit win32 env w2 w' Hp He') as [H|H]; [|exact H].
        rewrite He2 in H. left.
        destruct (send_ok env); [|reflexivity].
        change (bPerformExit w1) with (bPerformExit w) in H. congruence.
      * eexists. split.
        -- rewrite Hl3, Hl2. change (log w1) with (log w).
           rewrite <- !app_assoc. reflexivity.
        -- rewrite !sent_app, Hs3.
           destruct (send_ok env), (create_ok env), win32; simpl; lia.
    + rewrite Hflag. intros Hp.
      destruct (poll_receive_frame win32 env w w' Hp) as [Hr3 [Hf3 [d3 [Hl3 [Hs3 _]]]]].
      split; [congruence|]. split; [|split].
      * intros H. discriminate H.
      * intros He He'.
        destruct (poll_receive_exit win32 env w w' Hp He') as [H|H]; [congruence|exact H].
      * exists d3. split; [assumption|]. rewrite Hs3. simpl. lia.
  - rewrite Hflag. intros Hp.
    destruct (poll_receive_frame win32 env w w' Hp) as [Hr3 [Hf3 [d3 [Hl3 [Hs3 _]]]]].
    split; [congruence|]. split; [|split].
    + intros H _. congruence.
    + intros He He'.
      destruct (poll_receive_exit win32 env w w' Hp He') as [H|H]; [congruence|exact H].
    + exists d3. split; [assumption|]. rewrite Hs3. simpl. lia.
Qed.

Lemma Chat_loop_pass win32 envs : forall w w' b,
  bHasMessageWaiting w = false -> bPerformExit w = false ->
  Chat_loop win32 envs w = Some (w', b) ->
  (thread_running w = true -> Forall (fun e => create_ok e = true) envs ->
   thread_running w' = true) /\
  (b = true -> exists env, In env envs /\ ends_session env) /\
  exists d, log w' = log w ++ d /\
            length (sent d) <= length (filter thread_done envs).
Proof.
  induction envs as [|env envs IH]; intros w w' b Hflag Hrun; simpl.
  - intros [= <- <-]. split; [auto|]. split; [discriminate|].
    exists []. rewrite app_nil_r. auto.
  - destruct (Chat_iteration win32 env w) as [w1|] eqn:Hit; [|discriminate].
    destruct (Chat_iteration_pass win32 env w w1 Hflag Hit)
      as [Hf1 [Ht1 [He1 [d1 [Hl1 Hs1]]]]].
    destruct (bPerformExit w1) eqn:Ex.
    + intros [= <- <-]. split; [|split].
      * intros Hr Hall. inversion Hall; subst. auto.
      * intros _. exists env. split; [now left|auto].
      * exists d1. split; [assumption|].
        destruct (thread_done env); simpl in *; lia.
    + intros Hloop.
      destruct (IH w1 w' b Hf1 Ex Hloop) as [Ht2 [He2 [d2 [Hl2 Hs2]]]].
      split; [|split].
      * intros Hr Hall. inversion Hall; subst. auto.
      * intros Hb. destruct (He2 Hb) as [e [Hin He]]. exists e. split; [now right|auto].
      * exists (d1 ++ d2). rewrite Hl2, Hl1, app_assoc. split; [reflexivity|].
        rewrite sent_app, length_app.
        destruct (thread_done env); simpl in *; lia.
Qed.

(** The state in which the loop of [Chat] is entered. *)
Lemma Chat_unfold win32 create0_ok envs w :
  Chat win32 create0_ok envs w =
  Chat_loop win32 envs
    (start_thread create0_ok
       (emit (Print MsgConnected)
          (set_bHasMessageWaiting false (set_bPerformExit false w)))).
Proof. reflexivity. Qed.

(** X7: [Chat] returns only after a failure of [send], of [select] or of
    [recv], or after a [recv] of no bytes. Nothing that is typed ends the
    session: the word QUIT, which the banner of [Chat] announces, is sent
    like any other line. *)
Theorem session_ends_only_on_failure win32 create0_ok envs w w' :
  Chat win32 create0_ok envs w = Some (w', true) ->
  exists env, In env envs /\ ends_session env.
Proof.
  rewrite Chat_unfold. intros H.
  apply Chat_loop_pass in H.
  - destruct H as [_ [H _]]. now apply H.
  - unfold start_thread. destruct create0_ok; reflexivity.
  - unfold start_thread. destruct create0_ok; reflexivity.
Qed.

Lemma session_ends_only_on_failure_witness :
  exists env, In env [send_fails] /\ ends_session env.
Proof.
  assert (E : Chat true true [send_fails] (entry (text "x" ++ [LF]))
              = Some (after_failed_send, true)) by (vm_compute; reflexivity).
  exact (session_ends_only_on_failure true true [send_fails]
           (entry (text "x" ++ [LF])) after_failed_send E).
Defined.

(** X8: [Chat] never joins the keyboard thread it created last. When every
    [pthread_create] succeeds, a keyboard thread that has not been joined
    is left behind whenever the loop is left (and at every other end of a
    pass): there is no cancellation. *)
Theorem thread_left_behind win32 envs w w' b :
  Forall (fun e => create_ok e = true) envs ->
  Chat win32 true envs w = Some (w', b) ->
  thread_running w' = true.
Proof.
  intros Hall. rewrite Chat_unfold. intros H.
  apply Chat_loop_pass in H; try reflexivity.
  destruct H as [H _]. apply H; [reflexivity|assumption].
Qed.

Lemma thread_left_behind_witness :
  thread_running after_failed_send = true.
Proof.
  assert (E : Chat true true [send_fails] (entry (text "x" ++ [LF]))
              = Some (after_failed_send, true)) by (vm_compute; reflexivity).
  apply (thread_left_behind true [send_fails] (entry (text "x" ++ [LF]))
           after_failed_send true).
  - constructor; [reflexivity|constructor].
  - exact E.
Defined.

(** X9: [Chat] makes at most one [send] for each time a keyboard thread
    finishes, and none before: the number of [send] calls of a run is at
    most the number of passes before which a thread finished. *)
Theorem one_send_per_line win32 create0_ok envs w w' b :
  Chat win32 create0_ok envs w = Some (w', b) ->
  length (sent (added w w')) <= length (filter thread_done envs).
Proof.
  rewrite Chat_unfold. intros H.
  apply Chat_loop_pass in H.
  - destruct H as [_ [_ [d [Hl Hs]]]].
    unfold start_thread in Hl. destruct create0_ok; simpl in Hl;
      rewrite <- !app_assoc in Hl; rewrite (added_ext _ _ _ Hl);
      rewrite !sent_app; simpl; exact Hs.
  - unfold start_thread. destruct create0_ok; reflexivity.
  - unfold start_thread. destruct create0_ok; reflexivity.
Qed.

Lemma one_send_per_line_witness :
  length (sent (added (entry (text "x" ++ [LF])) after_failed_send))
    <= length (filter thread_done [send_fails]).
Proof.
  assert (E : Chat true true [send_fails] (entry (text "x" ++ [LF]))
              = Some (after_failed_send, true)) by (vm_compute; reflexivity).
  exact (one_send_per_line true true [send_fails] (entry (text "x" ++ [LF]))
           after_failed_send true E).
Defined.

End SessionExtras.

(** * Further properties of the prompts *)
Module PromptExtras.
Import ExtraSpec.

Lemma isdigit_range c : isdigit c = true -> 48 <= nat_of_ascii c <= 57.
Proof.
  unfold isdigit. intros H. apply andb_true_iff in H. destruct H as [H1 H2].
  apply Nat.leb_le in H1. apply Nat.leb_le in H2. lia.
Qed.

Lemma digit_is_not c d :
  isdigit c = true -> (nat_of_ascii d < 48 \/ 57 < nat_of_ascii d) ->
  Ascii.eqb c d = false.
Proof.
  intros Hc Hd. apply Ascii.eqb_neq. intros ->.
  apply isdigit_range in Hc. lia.
Qed.

Lemma digit_not_space c : isdigit c = true -> isspace c = false.
Proof.
  intros Hc. apply isdigit_range in Hc. unfold isspace.
  apply orb_false_iff. split.
  - apply Nat.eqb_neq. lia.
  - apply andb_false_iff. right. apply Nat.leb_gt. lia.
Qed.

Lemma digit_not_dot c : isdigit c = true -> Ascii.eqb c dot = false.
Proof.
  intros Hc. apply (digit_is_not c dot Hc). left.
  change (nat_of_ascii dot) with 46. lia.
Qed.

Lemma digit_value_range c : isdigit c = true -> (0 <= digit_value c <= 9)%Z.
Proof. intros Hc. apply isdigit_range in Hc. unfold digit_value. lia. Qed.

Lemma digits_lower acc s : (0 <= acc)%Z -> (acc <= digits acc s)%Z.
Proof.
  revert acc. induction s as [|c s IH]; intros acc Ha; cbn [digits]; [lia|].
  destruct (isdigit c) eqn:Hc; [|lia].
  pose proof (digit_value_range c Hc) as Hv.
  assert (Hacc : (0 <= 10 * acc + digit_value c)%Z) by lia.
  specialize (IH _ Hacc). lia.
Qed.

(** Reading stops at the first byte that is not a digit. *)
Lemma digits_stop ds junk : forall acc,
  Forall (fun c => isdigit c = true) ds ->
  match junk with [] => True | c :: _ => isdigit c = false end ->
  digits acc (ds ++ junk) = digits acc ds.
Proof.
  induction ds as [|d ds IH]; intros acc Hds Hj; cbn [app digits].
  - destruct junk as [|c junk]; [reflexivity|]. cbn [digits]. now rewrite Hj.
  - inversion Hds; subst. rewrite H1. now apply IH.
Qed.

Lemma skip_space_spaces ws s :
  Forall (fun c => isspace c = true) ws -> skip_space (ws ++ s) = skip_space s.
Proof.
  induction 1 as [|c ws Hc _ IH]; simpl; [reflexivity|]. now rewrite Hc.
Qed.

(** The number at the start of a string of digits followed by something
    else. *)
Lemma parse_int_digits ds junk :
  ds <> [] -> Forall (fun c => isdigit c = true) ds ->
  match junk with [] => True | c :: _ => isdigit c = false end ->
  parse_int (ds ++ junk) = Some (digits 0 ds).
Proof.
  intros Hne Hds Hj. destruct ds as [|d ds]; [contradiction|].
  inversion Hds; subst.
  unfold parse_int. simpl app. simpl skip_space.
  rewrite (digit_not_space d H1).
  rewrite (digit_is_not d "-"%char H1)
    by (left; change (nat_of_ascii "-") with 45; lia).
  rewrite (digit_is_not d "+"%char H1)
    by (left; change (nat_of_ascii "+") with 43; lia).
  cbn [fst snd]. rewrite H1.
  f_equal. exact (digits_stop (d :: ds) junk 0%Z Hds Hj).
Qed.

(** X10: [GetValidPortNo] reads the number at the start of the line. White
    space before the digits and whatever follows them is ignored, and the
    line is accepted exactly when the [int] that [sscanf] stores for that
    number is between 1 and 65534. That [int] is the number itself when it
    fits; when it does not, it is what the C library stores ([overflow]). *)
Theorem port_line_reading overflow b ws ds junk :
  holds b (ws ++ ds ++ junk) ->
  Forall (fun c => isspace c = true) ws ->
  ds <> [] -> Forall (fun c => isdigit c = true) ds ->
  match junk with [] => True | c :: _ => isdigit c = false end ->
  port_test overflow b =
    match as_int overflow (digits 0 ds) with
    | Some p => Some (if ((p <? 65535) && (p >? 0))%Z then Some p else None)
    | None => None
    end /\
  ((digits 0 ds <= INT_MAX)%Z ->
   as_int overflow (digits 0 ds) = Some (digits 0 ds)).
Proof.
  intros Hh Hws Hne Hds Hj. split.
  - unfold port_test. rewrite (cstring_holds _ _ Hh).
    unfold parse_int at 1. rewrite skip_space_spaces by assumption.
    change (match _ with Some v => _ | None => Some None end)
      with (match parse_int (ds ++ junk) with
            | Some v =>
                PortNo <- as_int overflow v ;;
                if ((PortNo <? 65535) && (PortNo >? 0))%Z
                then Some (Some PortNo) else Some None
            | None => Some None
            end).
    rewrite (parse_int_digits ds junk Hne Hds Hj).
    destruct (as_int overflow (digits 0 ds)) as [p|]; [|reflexivity].
    now destruct ((p <? 65535) && (p >? 0))%Z.
  - intros Hmax. unfold as_int.
    pose proof (digits_lower 0 ds (Z.le_refl 0)).
    replace ((INT_MIN <=? digits 0 ds) && (digits 0 ds <=? INT_MAX))%Z with true;
      [reflexivity|].
    symmetry. apply andb_true_iff. unfold INT_MIN.
    split; apply Z.leb_le; lia.
Qed.

Lemma port_line_reading_witness :
  port_test glibc (blit (text " 4294967297 " ++ [LF; NUL]) zeroed) = Some (Some 1%Z).
Proof.
  assert (Hh : holds (blit (text " 4294967297 " ++ [LF; NUL]) zeroed)
                 (text " " ++ text "4294967297" ++ text " " ++ [LF])).
  { split.
    - intros H. repeat (destruct H as [H|H]; [discriminate H|]). exact H.
    - exists (repeat NUL 286). reflexivity. }
  assert (Hws : Forall (fun c => isspace c = true) (text " "))
    by (repeat constructor).
  assert (Hne : text "4294967297" <> []) by discriminate.
  assert (Hds : Forall (fun c => isdigit c = true) (text "4294967297"))
    by (repeat constructor).
  destruct (port_line_reading glibc _ _ _ (text " " ++ [LF]) Hh Hws Hne Hds eq_refl)
    as [E _].
  rewrite E. vm_compute. reflexivity.
Defined.

(** X11: whatever is typed, and however often the prompt is repeated, a port
    that [GetValidPortNo] returns is between 1 and 65534. *)
Theorem GetValidPortNo_returns_port_in_range overflow fuel retries stdin b a :
  GetValidPortNo overflow fuel retries stdin b = Returned a ->
  (1 <= PortNo a <= 65534)%Z.
Proof. exact (PromptClaims.GetValidPortNo_range overflow fuel retries stdin b a). Qed.

Lemma GetValidPortNo_range_witness :
  (1 <= PortNo (mkPortAnswer 8080 1 []
                  (blit (text "8080" ++ [LF; NUL])
                     (blit (text "65535" ++ [LF; NUL]) zeroed))) <= 65534)%Z.
Proof.
  assert (E : GetValidPortNo glibc 2 0
                (text "65535" ++ [LF] ++ text "8080" ++ [LF]) zeroed
              = Returned (mkPortAnswer 8080 1 []
                  (blit (text "8080" ++ [LF; NUL])
                     (blit (text "65535" ++ [LF; NUL]) zeroed))))
    by (vm_compute; reflexivity).
  exact (GetValidPortNo_returns_port_in_range glibc 2 0 _ _ _ E).
Defined.

(** At the end of the keyboard stream [fgets] stores nothing. *)
Lemma fgets_eof b : fgets b 300 [] = (b, []).
Proof. reflexivity. Qed.

(** X12: at the end of the keyboard stream a prompt tests again the line
    that [InputBuffer] still holds, since [fgets] reads nothing and its
    result is not looked at. Each prompt then returns at once when that
    stale line passes its test, and never returns when it does not. At the
    start of the program [InputBuffer] is cleared, so [GetValidPortNo] never
    returns there. *)
Theorem prompts_at_eof overflow b fuel retries :
  GetValidPortNo overflow (S fuel) retries [] b =
    match port_test overflow b with
    | None => Undefined
    | Some (Some p) => Returned (mkPortAnswer p retries [] b)
    | Some None => Prompting
    end /\
  GetValidIP overflow (S fuel) retries [] b =
    match ip_test overflow b with
    | None => Undefined
    | Some (Some a) => Returned (mkIPAnswer a retries [] b)
    | Some None => Prompting
    end /\
  GetValidPortNo overflow fuel retries [] zeroed = Prompting.
Proof.
  assert (Hport : forall c fuel retries,
            GetValidPortNo overflow (S fuel) retries [] c =
              match port_test overflow c with
              | None => Undefined
              | Some (Some p) => Returned (mkPortAnswer p retries [] c)
              | Some None => Prompting
              end).
  { intros c n. induction n as [|n IH]; intros r.
    - cbn [GetValidPortNo]. rewrite fgets_eof.
      now destruct (port_test overflow c) as [[p|]|].
    - change (GetValidPortNo overflow (S (S n)) r [] c)
        with (let (b', rest) := fgets c 300 [] in
              match port_test overflow b' with
              | None => Undefined
              | Some (Some p) => Returned (mkPortAnswer p r rest b')
              | Some None => GetValidPortNo overflow (S n) (S r) rest b'
              end).
      rewrite fgets_eof.
      destruct (port_test overflow c) as [[p|]|] eqn:Ht; try reflexivity.
      apply IH. }
  split; [apply Hport|]. split.
  - revert retries. induction fuel as [|n IH]; intros r.
    + cbn [GetValidIP]. rewrite fgets_eof.
      now destruct (ip_test overflow b) as [[a|]|].
    + change (GetValidIP overflow (S (S n)) r [] b)
        with (let (b', rest) := fgets b 300 [] in
              match ip_test overflow b' with
              | None => Undefined
              | Some (Some a) => Returned (mkIPAnswer a r rest b')
              | Some None => GetValidIP overflow (S n) (S r) rest b'
              end).
      rewrite fgets_eof.
      destruct (ip_test overflow b) as [[a|]|] eqn:Ht; try reflexivity.
      apply IH.
  - destruct fuel as [|n]; [reflexivity|]. rewrite Hport.
    assert (E : port_test overflow zeroed = Some None) by (vm_compute; reflexivity).
    now rewrite E.
Qed.

(** The line "1.2.3.4", typed at the port prompt before the stream ends, is
    taken as port 1, and [GetValidIP] then takes it as the address. *)
Lemma prompts_at_eof_witness :
  GetValidPortNo glibc 1 0 (text "1.2.3.4" ++ [LF]) zeroed
    = Returned (mkPortAnswer 1 0 [] (typed_line "1.2.3.4")) /\
  GetValidIP glibc 3 0 [] (typed_line "1.2.3.4")
    = Returned (mkIPAnswer (text "1.2.3.4") 0 [] (typed_line "1.2.3.4")) /\
  GetValidIP glibc 3 0 [] (typed_line "65535") = Prompting.
Proof.
  split; [vm_compute; reflexivity|]. split.
  - rewrite (proj1 (proj2 (prompts_at_eof glibc (typed_line "1.2.3.4") 2 0))).
    assert (E : ip_test glibc (typed_line "1.2.3.4") = Some (Some (text "1.2.3.4")))
      by (vm_compute; reflexivity).
    rewrite E. reflexivity.
  - rewrite (proj1 (proj2 (prompts_at_eof glibc (typed_line "65535") 2 0))).
    assert (E : ip_test glibc (typed_line "65535") = Some None)
      by (vm_compute; reflexivity).
    rewrite E. reflexivity.
Defined.

Lemma parse_int_all_digits ds :
  ds <> [] -> Forall (fun c => isdigit c = true) ds ->
  parse_int ds = Some (digits 0 ds).
Proof.
  intros Hne Hds. pose proof (parse_int_digits ds [] Hne Hds I) as H.
  now rewrite app_nil_r in H.
Qed.

(** [atoi] on the digits of an octet: their number, stored in an [int]. *)
Lemma atoi_digits overflow o :
  Forall (fun c => isdigit c = true) o ->
  atoi overflow o = as_int overflow (digits 0 o).
Proof.
  intros Ho. unfold atoi. destruct o as [|d o]; [reflexivity|].
  now rewrite (parse_int_all_digits (d :: o)) by (try discriminate; auto).
Qed.

(** The test [atoi(LastIPOctet) > 255 || atoi(LastIPOctet) < 0]. *)
Lemma octet_test v : ((v >? 255) || (v <? 0))%Z = false <-> (0 <= v <= 255)%Z.
Proof.
  rewrite orb_false_iff, Z.ltb_ge. destruct (Z.gtb_spec v 255) as [Hgt|Hle]; split.
  - intros [Habs _]. discriminate Habs.
  - lia.
  - lia.
  - intros Hr. split; [reflexivity|lia].
Qed.

(** The validation loop when it ends with [bValidInput] still true: the
    characters read were digits and dots, every octet that a dot ended was
    not empty and from 0 to 255, and [OctetCounter] counts them. *)
Lemma ip_loop_sound overflow cs : forall st st',
  ip_loop overflow cs st = Some st' -> bValidInput st' = true ->
  Forall (fun c => isdigit c = true) (LastIPOctet st) ->
  length (LastIPOctet st) <= 19 ->
  bValidInput st = true /\
  Forall (fun c => isdigit c = true) (LastIPOctet st') /\
  length (LastIPOctet st') <= 19 /\
  exists os,
    LastIPOctet st ++ cs = join_dots os (LastIPOctet st') /\
    OctetCounter st' = (OctetCounter st + Z.of_nat (length os))%Z /\
    Forall (fun o => o <> [] /\ octet_ok overflow o) os.
Proof.
  induction cs as [|c cs IH]; intros st st' Hl Hv Hd Hn.
  - simpl in Hl. injection Hl as <-.
    split; [assumption|]. split; [assumption|]. split; [assumption|].
    exists []. simpl. rewrite app_nil_r. split; [reflexivity|].
    split; [lia|constructor].
  - simpl in Hl. unfold ip_char in Hl.
    destruct (negb (isdigit c) && negb (Ascii.eqb c dot)) eqn:E1.
    { simpl in Hl. injection Hl as <-. discriminate Hv. }
    destruct (Ascii.eqb c dot) eqn:Edot.
    + (* a dot *)
      destruct (length (LastIPOctet st) =? 0) eqn:E2.
      { simpl in Hl. injection Hl as <-. discriminate Hv. }
      cbn [andb LastIPOctet OctetCounter bValidInput] in Hl.
      apply Nat.eqb_neq in E2.
      replace (0 <? length (LastIPOctet st)) with true in Hl
        by (symmetry; apply Nat.ltb_lt; lia).
      destruct (atoi overflow (LastIPOctet st)) as [v|] eqn:Ea; [|discriminate].
      destruct ((v >? 255) || (v <? 0))%Z eqn:E3.
      { simpl in Hl. injection Hl as <-. discriminate Hv. }
      cbn [snd fst] in Hl.
      destruct (IH _ _ Hl Hv) as [Hb [Hd' [Hn' [os [Hj [Hc Hos]]]]]];
        [constructor|simpl; lia|].
      cbn [bValidInput LastIPOctet OctetCounter] in Hb, Hj, Hc.
      split; [assumption|]. split; [assumption|]. split; [assumption|].
      exists (LastIPOctet st :: os). split; [|split].
      * apply Ascii.eqb_eq in Edot. subst c. simpl in Hj. simpl. now rewrite Hj.
      * simpl length. rewrite Hc. lia.
      * constructor; [|assumption]. split.
        -- intros H. rewrite H in E2. now apply E2.
        -- split; [assumption|]. split; [assumption|].
           exists v. rewrite <- (atoi_digits overflow _ Hd).
           split; [assumption|]. now apply octet_test.
    + (* a digit *)
      cbn [andb] in Hl.
      assert (Hc : isdigit c = true).
      { destruct (isdigit c); [reflexivity|discriminate E1]. }
      unfold strcat1 in Hl.
      destruct (length (LastIPOctet st) + 2 <=? 20) eqn:E4; [|discriminate].
      apply Nat.leb_le in E4. cbn [snd fst] in Hl.
      destruct (IH _ _ Hl Hv) as [Hb [Hd' [Hn' [os [Hj [Hcnt Hos]]]]]].
      * cbn [LastIPOctet]. apply Forall_app. split; [assumption|]. now constructor.
      * cbn [LastIPOctet]. rewrite length_app. simpl. lia.
      * cbn [bValidInput LastIPOctet OctetCounter] in Hb, Hj, Hcnt.
        split; [assumption|]. split; [assumption|]. split; [assumption|].
        exists os. split; [|split; assumption].
        rewrite <- Hj, <- app_assoc. reflexivity.
Qed.

(** A run of digits is appended to [LastIPOctet] as long as it fits. *)
Lemma ip_loop_digits overflow ds : forall o v k rest,
  Forall (fun c => isdigit c = true) ds -> length o + length ds <= 19 ->
  ip_loop overflow (ds ++ rest) (mkScan v o k)
    = ip_loop overflow rest (mkScan v (o ++ ds) k).
Proof.
  induction ds as [|d ds IH]; intros o v k rest Hds Hlen.
  - simpl. now rewrite app_nil_r.
  - inversion Hds; subst. simpl in Hlen.
    cbn [app ip_loop]. unfold ip_char.
    rewrite H1, (digit_not_dot d H1). cbn [negb andb LastIPOctet].
    unfold strcat1.
    replace (length o + 2 <=? 20) with true by (symmetry; apply Nat.leb_le; lia).
    cbn [snd fst bValidInput OctetCounter].
    rewrite IH; [|assumption|rewrite length_app; simpl; lia].
    now rewrite <- app_assoc.
Qed.

(** A dot after an octet that passes. *)
Lemma ip_loop_dot overflow o v k rest :
  o <> [] -> octet_ok overflow o ->
  ip_loop overflow (dot :: rest) (mkScan v o k)
    = ip_loop overflow rest (mkScan v [] (k + 1)).
Proof.
  intros Hne (Ho & _ & x & Hx & Hr). cbn [ip_loop]. unfold ip_char.
  change (isdigit dot) with false. change (Ascii.eqb dot dot) with true.
  cbn [negb andb LastIPOctet OctetCounter bValidInput].
  destruct o as [|d o]; [contradiction|].
  change (length (d :: o) =? 0) with false.
  change (0 <? length (d :: o)) with true. cbv iota.
  cbn [LastIPOctet OctetCounter bValidInput].
  rewrite (atoi_digits overflow _ Ho), Hx.
  apply octet_test in Hr. rewrite Hr. reflexivity.
Qed.

Lemma ip_loop_complete overflow os : forall lst k,
  Forall (fun o => o <> [] /\ octet_ok overflow o) os ->
  Forall (fun c => isdigit c = true) lst -> length lst <= 19 ->
  ip_loop overflow (join_dots os lst) (mkScan true [] k)
    = Some (mkScan true lst (k + Z.of_nat (length os))).
Proof.
  induction os as [|o os IH]; intros lst k Hos Hl Hn.
  - simpl join_dots. rewrite <- (app_nil_r lst) at 1.
    rewrite ip_loop_digits by (simpl; auto). simpl.
    f_equal. f_equal. lia.
  - inversion Hos as [|? ? [Hne Hok] Hos']; subst.
    pose proof Hok as (Hd & Hlen & _).
    simpl join_dots.
    rewrite ip_loop_digits by (simpl; auto). simpl app.
    rewrite ip_loop_dot by assumption.
    rewrite IH by assumption. f_equal. f_equal. simpl length. lia.
Qed.

Lemma length_3 (A : Type) (l : list A) :
  length l = 3 -> exists a b c, l = [a; b; c].
Proof.
  destruct l as [|a [|b [|c [|d l]]]]; try discriminate. eauto.
Qed.

Lemma ip_test_sound overflow b w :
  ip_test overflow b = Some (Some w) ->
  address_form overflow w /\ exists s, cstring b = Some s /\ w = first_word s.
Proof.
  unfold ip_test. destruct (cstring b) as [s|]; [|discriminate].
  destruct (first_word s) as [|c word] eqn:Ew; [discriminate|].
  destruct (length (c :: word) + 1 <=? 50) eqn:El; [|discriminate].
  destruct (ip_loop overflow (c :: word) (mkScan true [] 0)) as [st|] eqn:Eloop;
    [|discriminate].
  destruct (atoi overflow (LastIPOctet st)) as [v|] eqn:Ea; [|discriminate].
  destruct ((v >? 255) || (v <? 0))%Z eqn:Ev; [discriminate|].
  destruct (OctetCounter st =? 3)%Z eqn:Ec; [|discriminate].
  destruct (bValidInput st) eqn:Eb; [|discriminate].
  intros [= <-].
  destruct (ip_loop_sound overflow _ _ _ Eloop Eb) as [_ [Hd [Hn [os [Hj [Hc Hos]]]]]];
    [constructor|simpl; lia|].
  apply Z.eqb_eq in Ec. cbn [OctetCounter LastIPOctet] in Hc, Hj.
  assert (Hlen : length os = 3) by lia.
  destruct (length_3 _ os Hlen) as [o1 [o2 [o3 ->]]].
  inversion Hos as [|? ? [N1 K1] Hos1]; subst.
  inversion Hos1 as [|? ? [N2 K2] Hos2]; subst.
  inversion Hos2 as [|? ? [N3 K3] _]; subst.
  split; [|eauto]. unfold address_form.
  split; [now apply Nat.leb_le|].
  exists o1, o2, o3, (LastIPOctet st). simpl in Hj.
  split; [exact Hj|]. do 6 (split; [assumption|]).
  unfold octet_ok. split; [assumption|]. split; [assumption|].
  exists v. rewrite <- (atoi_digits overflow _ Hd).
  split; [assumption|]. now apply octet_test.
Qed.

Lemma ip_test_complete overflow b s :
  cstring b = Some s -> address_form overflow (first_word s) ->
  ip_test overflow b = Some (Some (first_word s)).
Proof.
  intros Hc (Hlen & o1 & o2 & o3 & o4 & Hw & N1 & N2 & N3 & K1 & K2 & K3 & D4 & L4 & v & E4 & V4).
  unfold ip_test. rewrite Hc.
  destruct (first_word s) as [|c word] eqn:Ew.
  { destruct o1; [contradiction|discriminate Hw]. }
  replace (length (c :: word) + 1 <=? 50) with true
    by (symmetry; now apply Nat.leb_le).
  rewrite Hw.
  change (o1 ++ dot :: o2 ++ dot :: o3 ++ dot :: o4)
    with (join_dots [o1; o2; o3] o4).
  assert (Hos : Forall (fun o => o <> [] /\ octet_ok overflow o) [o1; o2; o3]).
  { constructor; [split; assumption|]. constructor; [split; assumption|].
    constructor; [split; assumption|]. constructor. }
  rewrite ip_loop_complete by assumption.
  cbn [OctetCounter LastIPOctet bValidInput length].
  change (0 + Z.of_nat 3 =? 3)%Z with true. cbv iota.
  rewrite (atoi_digits overflow _ D4), E4.
  apply octet_test in V4. rewrite V4. reflexivity.
Qed.

(** X13: the lines [GetValidIP] accepts. The first word of the line is
    taken as the address exactly when it fits [IPAddressBuffer] and is made
    of four runs of at most 19 digits separated by three dots, where the
    first three runs are not empty (the last one may be) and the [int] that
    [atoi] returns for each run is from 0 to 255. That [int] is the number
    of the run when it fits; when it does not, it is what the C library
    returns ([overflow]). *)
Theorem ip_test_accepts_iff overflow b s w :
  cstring b = Some s ->
  (ip_test overflow b = Some (Some w) <->
   w = first_word s /\ address_form overflow w).
Proof.
  intros Hc. split.
  - intros H. destruct (ip_test_sound overflow b w H) as [Hf [s' [Hc' Hw]]].
    rewrite Hc in Hc'. injection Hc' as <-. auto.
  - intros [-> Hf]. now apply ip_test_complete.
Qed.

(** With the GNU C library the first octet of "4294967297.2.3.4" is read
    as 1, and the line is accepted. *)
Lemma ip_test_accepts_iff_witness :
  ip_test glibc (typed_line "4294967297.2.3.4")
    = Some (Some (text "4294967297.2.3.4")) /\
  address_form glibc (text "4294967297.2.3.4").
Proof.
  assert (E : ip_test glibc (typed_line "4294967297.2.3.4")
              = Some (Some (text "4294967297.2.3.4")))
    by (vm_compute; reflexivity).
  split; [exact E|].
  assert (Hc : cstring (typed_line "4294967297.2.3.4")
               = Some (text "4294967297.2.3.4" ++ [LF]))
    by (vm_compute; reflexivity).
  exact (proj2 (proj1 (ip_test_accepts_iff glibc _ _ _ Hc) E)).
Defined.

(** X14: whatever is typed, an address that [GetValidIP] returns is of that
    form. *)
Theorem GetValidIP_returns_address overflow fuel : forall retries stdin b a,
  GetValidIP overflow fuel retries stdin b = Returned a ->
  address_form overflow (IPAddress a).
Proof.
  induction fuel as [|fuel IH]; intros retries stdin b a; simpl; [discriminate|].
  destruct (fgets b 300 stdin) as [b' rest].
  destruct (ip_test overflow b') as [[w|]|] eqn:Ht; try discriminate.
  - intros [= <-]. simpl. exact (proj1 (ip_test_sound overflow b' w Ht)).
  - apply IH.
Qed.

Lemma GetValidIP_returns_address_witness :
  address_form glibc
    (IPAddress (mkIPAnswer (text "4294967297.2.3.4") 1 []
                  (blit (text "4294967297.2.3.4" ++ [LF; NUL])
                     (blit (text "10.0.0.256" ++ [LF; NUL]) zeroed)))).
Proof.
  assert (E : GetValidIP glibc 2 0
                (text "10.0.0.256" ++ [LF] ++ text "4294967297.2.3.4" ++ [LF]) zeroed
              = Returned (mkIPAnswer (text "4294967297.2.3.4") 1 []
                            (blit (text "4294967297.2.3.4" ++ [LF; NUL])
                               (blit (text "10.0.0.256" ++ [LF; NUL]) zeroed))))
    by (vm_compute; reflexivity).
  exact (GetValidIP_returns_address glibc 2 0 _ _ _ E).
Defined.

End PromptExtras.

(** * Properties of the console input of [main] *)
Module ConsoleExtras.
Import Program Console.

Lemma code_bound c : (0 <= Z.of_nat (nat_of_ascii c) < 256)%Z.
Proof. pose proof (nat_ascii_bounded c). lia. Qed.

Lemma code_inj c d : nat_of_ascii c = nat_of_ascii d -> c = d.
Proof.
  intros H. rewrite <- (ascii_nat_embedding c), <- (ascii_nat_embedding d).
  now rewrite H.
Qed.

(** The [char] a byte is stored as, against a small value that is not
    negative: equal only for the byte of that value. *)
Lemma to_char_small cs c d :
  nat_of_ascii d < 128 ->
  (to_char cs (Z.of_nat (nat_of_ascii c)) =? Z.of_nat (nat_of_ascii d))%Z
    = Ascii.eqb c d.
Proof.
  intros Hd. pose proof (code_bound c) as Hc. unfold to_char.
  rewrite Z.mod_small by lia.
  destruct (Ascii.eqb c d) eqn:E.
  - apply Ascii.eqb_eq in E. subst d. apply Z.eqb_eq.
    replace (128 <=? Z.of_nat (nat_of_ascii c))%Z with false
      by (symmetry; apply Z.leb_gt; lia).
    now rewrite andb_false_r.
  - apply Z.eqb_neq. apply Ascii.eqb_neq in E. intros H. apply E. apply code_inj.
    destruct (cs && (128 <=? Z.of_nat (nat_of_ascii c))%Z) eqn:Eb; [|lia].
    apply andb_true_iff in Eb. destruct Eb as [_ Eb]. apply Z.leb_le in Eb. lia.
Qed.

(** A byte other than 255 is never taken for [EOF]. *)
Lemma to_char_not_eof cs c :
  c <> "255"%char -> (to_char cs (Z.of_nat (nat_of_ascii c)) =? EOF)%Z = false.
Proof.
  intros Hne. pose proof (code_bound c) as Hc. unfold to_char, EOF.
  rewrite Z.mod_small by lia. apply Z.eqb_neq. intros H. apply Hne.
  apply code_inj. change (nat_of_ascii "255") with 255.
  destruct (cs && (128 <=? Z.of_nat (nat_of_ascii c))%Z); lia.
Qed.

(** The byte 255 is taken for [EOF] exactly where [char] is signed. *)
Lemma to_char_eof cs c :
  (to_char cs (Z.of_nat (nat_of_ascii c)) =? EOF)%Z = cs && Ascii.eqb c "255".
Proof.
  destruct (Ascii.eqb c "255") eqn:E.
  - apply Ascii.eqb_eq in E. subst c. now destruct cs.
  - rewrite andb_false_r. apply to_char_not_eof. now apply Ascii.eqb_neq.
Qed.

(** [ClearInputBuffer] discards the bytes up to the first one at which its
    loop stops, that byte included, and nothing more. *)
Lemma ClearInputBuffer_stops cs l s rest :
  no_stop_byte cs l -> stop_byte cs s ->
  ClearInputBuffer cs (l ++ s :: rest) = Some rest.
Proof.
  intros Hl Hs. induction l as [|c l IH]; cbn [app ClearInputBuffer].
  - destruct Hs as [-> | [-> ->]]; [now destruct cs | reflexivity].
  - change 10%Z with (Z.of_nat (nat_of_ascii LF)).
    rewrite (to_char_small cs c LF) by (change (nat_of_ascii LF) with 10; lia).
    rewrite to_char_eof.
    assert (Hc : ~ stop_byte cs c) by (apply Hl; now left).
    replace (Ascii.eqb c LF) with false
      by (symmetry; apply Ascii.eqb_neq; intros ->; apply Hc; now left).
    replace (cs && Ascii.eqb c "255") with false.
    + apply IH. intros x Hx. apply Hl. now right.
    + symmetry. apply andb_false_iff. destruct cs; [right|now left].
      apply Ascii.eqb_neq. intros ->. apply Hc. right. now split.
Qed.

(** X15: only the first character of the answer to the role prompt counts.
    If it is 1 or 2 the role is chosen, and [ClearInputBuffer] discards what
    follows up to and including the first newline or, where [char] is
    signed, the first byte 255, which it takes for the end of the stream.
    The prompts that follow start reading right after that byte. *)
Theorem role_from_first_char cs fuel c l s rest invalid :
  c = "1"%char \/ c = "2"%char ->
  no_stop_byte cs l -> stop_byte cs s ->
  choose_role cs (S fuel) (c :: l ++ s :: rest) invalid =
    Returned (if Ascii.eqb c "1" then SERVER else CLIENT, rest, invalid).
Proof.
  intros Hc Hl Hs. cbn [choose_role getchar fst snd].
  rewrite (ClearInputBuffer_stops cs l s rest Hl Hs).
  change 49%Z with (Z.of_nat (nat_of_ascii "1")).
  change 50%Z with (Z.of_nat (nat_of_ascii "2")).
  rewrite !to_char_small by (vm_compute; lia).
  destruct Hc as [-> | ->]; reflexivity.
Qed.

(** Where [char] is signed, a byte 255 in the answer ends the clearing: the
    rest of the answer's line is left for the port prompt. *)
Lemma role_from_first_char_witness :
  choose_role true 1 ("1"%char :: text "st" ++ "255"%char :: text "8080" ++ [LF]) 0
    = Returned (SERVER, text "8080" ++ [LF], 0) /\
  choose_role false 1 ("2"%char :: text "nd" ++ LF :: text "8080" ++ [LF]) 0
    = Returned (CLIENT, text "8080" ++ [LF], 0).
Proof.
  split.
  - apply (role_from_first_char true 0 "1"%char (text "st") "255"%char
             (text "8080" ++ [LF]) 0).
    + now left.
    + intros x [<-|[<-|[]]] [H|[_ H]]; discriminate H.
    + right. split; reflexivity.
  - apply (role_from_first_char false 0 "2"%char (text "nd") LF
             (text "8080" ++ [LF]) 0).
    + now right.
    + intros x [<-|[<-|[]]] [H|[H _]]; discriminate H.
    + now left.
Defined.

(** X16: an answer that does not start with 1 or 2 makes [ClearInputBuffer]
    run twice, once after [getchar] and once after "You have provided
    invalid input"; each run discards the bytes up to and including the next
    newline (or byte 255 where [char] is signed). When the first character
    of the answer is not the newline, what is lost is the rest of the
    answer's line and the whole line typed next; when the answer is the
    newline alone, [getchar] has taken it and the two lines typed next are
    lost. The role is then asked for again. *)
Theorem invalid_answer_clears_twice cs fuel c l1 s1 l2 s2 rest invalid :
  c <> "1"%char -> c <> "2"%char ->
  no_stop_byte cs l1 -> stop_byte cs s1 ->
  no_stop_byte cs l2 -> stop_byte cs s2 ->
  choose_role cs (S fuel) (c :: l1 ++ s1 :: l2 ++ s2 :: rest) invalid =
    choose_role cs fuel rest (S invalid).
Proof.
  intros Hc1 Hc2 H1 S1 H2 S2. cbn [choose_role getchar fst snd].
  rewrite (ClearInputBuffer_stops cs l1 s1 _ H1 S1).
  change 49%Z with (Z.of_nat (nat_of_ascii "1")).
  change 50%Z with (Z.of_nat (nat_of_ascii "2")).
  rewrite !to_char_small by (vm_compute; lia).
  replace (Ascii.eqb c "1") with false by (symmetry; now apply Ascii.eqb_neq).
  replace (Ascii.eqb c "2") with false by (symmetry; now apply Ascii.eqb_neq).
  now rewrite (ClearInputBuffer_stops cs l2 s2 rest H2 S2).
Qed.

(** The answer "x" costs the line typed after it; the empty answer costs
    the two lines typed after it. *)
Lemma invalid_answer_clears_twice_witness :
  choose_role true 2 (text "x" ++ LF :: text "1" ++ LF :: text "2" ++ [LF]) 0
    = choose_role true 1 (text "2" ++ [LF]) 1 /\
  choose_role true 2 (LF :: text "1" ++ LF :: text "2" ++ LF :: text "1" ++ [LF]) 0
    = choose_role true 1 (text "1" ++ [LF]) 1.
Proof.
  split.
  - apply (invalid_answer_clears_twice true 1 "x"%char [] LF (text "1") LF
             (text "2" ++ [LF]) 0).
    + discriminate.
    + discriminate.
    + intros x [].
    + now left.
    + intros x [<-|[]] [H|[_ H]]; discriminate H.
    + now left.
  - apply (invalid_answer_clears_twice true 1 LF (text "1") LF (text "2") LF
             (text "1" ++ [LF]) 0).
    + discriminate.
    + discriminate.
    + intros x [<-|[]] [H|[_ H]]; discriminate H.
    + now left.
    + intros x [<-|[]] [H|[_ H]]; discriminate H.
    + now left.
Defined.

(** X17: at the end of the keyboard stream the role prompt never ends:
    [getchar] returns [EOF], which is neither 1 nor 2, and no turn of the
    loop can read anything. *)
Theorem role_prompt_spins_at_eof cs fuel invalid :
  choose_role cs fuel [] invalid = Prompting.
Proof.
  revert invalid. induction fuel as [|fuel IH]; intros invalid; [reflexivity|].
  cbn [choose_role getchar fst snd ClearInputBuffer].
  destruct cs.
  - change (to_char true EOF =? EOF)%Z with true. cbv iota.
    change (to_char true EOF =? 49)%Z with false.
    change (to_char true EOF =? 50)%Z with false. cbv iota.
    cbn [ClearInputBuffer]. change (to_char true EOF =? EOF)%Z with true.
    cbv iota. apply IH.
  - reflexivity.
Qed.

End ConsoleExtras.

(** * Properties of the connection setup *)
Module NetExtras.
Import Net.

Lemma closed_app l1 l2 : closed (l1 ++ l2) = closed l1 ++ closed l2.
Proof.
  induction l1 as [|c l1 IH]; simpl; [reflexivity|].
  destruct c; simpl; now rewrite ?IH.
Qed.

(** X18: [HostServer] reports success exactly when the socket library
    starts (on Windows), [socket] returns a handle and [bind] succeeds. The
    results of [listen] and [accept] are not looked at: on success
    [ServerSocket] is whatever [accept] returned, [INVALID_SOCKET]
    included, and [main] goes on to [Chat] with it. *)
Theorem HostServer_success win32 env s :
  (fst (HostServer win32 env s) = true <->
   (win32 = true -> startup_error env = false /\ version_ok env = true) /\
   socket_res env <> INVALID_SOCKET /\ bind_ok env = true) /\
  (fst (HostServer win32 env s) = true ->
   ServerSocket (snd (HostServer win32 env s)) = accept_res env).
Proof.
  unfold HostServer, startup, startup_failed.
  destruct win32, (startup_error env), (version_ok env); cbn [fst snd];
    cbn [ServerSocket set_ServerSocket did];
    destruct (Z.eqb_spec (socket_res env) INVALID_SOCKET) as [E|E];
    destruct (bind_ok env); cbn [negb fst snd ServerSocket set_ServerSocket did];
    (split; [split|]); try discriminate; try reflexivity;
    try (intros [H1 [H2 H3]]; try contradiction; try discriminate H3;
         destruct (H1 eq_refl) as [H4 H5]; discriminate);
    intros _; repeat split; try assumption; try reflexivity;
    try discriminate; intros _; split; reflexivity.
Qed.

Lemma HostServer_success_witness :
  fst (HostServer false (mkNetEnv false true 3 true INVALID_SOCKET true) boot) = true /\
  ServerSocket (snd (HostServer false (mkNetEnv false true 3 true INVALID_SOCKET true) boot))
    = INVALID_SOCKET.
Proof.
  split; [reflexivity|].
  exact (proj2 (HostServer_success false
                  (mkNetEnv false true 3 true INVALID_SOCKET true) boot) eq_refl).
Defined.

(** X19: the listening socket is never closed. In the server branch of
    [main], when [HostServer] has reported success, the only handle passed
    to [close] is the one [accept] returned (none if that is 0): the handle
    that [socket] returned and that was bound and listened on is overwritten
    by the assignment from [accept] and is not closed by the program. *)
Theorem listening_socket_left_open win32 env s :
  fst (server_branch win32 env s) = true ->
  closed (calls (snd (server_branch win32 env s))) =
    closed (calls s) ++ (if (accept_res env =? 0)%Z then [] else [accept_res env]) /\
  (accept_res env <> socket_res env ->
   ~ In (socket_res env) (closed (calls s)) ->
   ~ In (socket_res env) (closed (calls (snd (server_branch win32 env s))))).
Proof.
  intros Hok.
  assert (Hc : closed (calls (snd (server_branch win32 env s))) =
               closed (calls s) ++
               (if (accept_res env =? 0)%Z then [] else [accept_res env])).
  { revert Hok. unfold server_branch, HostServer, startup, startup_failed, CloseConnection.
    cbn [fst snd].
    destruct win32, (startup_error env), (version_ok env); cbn [fst snd];
      cbn [ServerSocket set_ServerSocket did];
      destruct (socket_res env =? INVALID_SOCKET)%Z; cbn [fst snd];
      try discriminate;
      destruct (bind_ok env); cbn [negb fst snd ServerSocket set_ServerSocket did calls];
      try discriminate; intros _;
      destruct (accept_res env =? 0)%Z;
      unfold set_ServerSocket, did; simpl; rewrite !closed_app; simpl;
      now rewrite ?app_nil_r. }
  split; [exact Hc|].
  intros Hne Hnot Hin. rewrite Hc in Hin. apply in_app_or in Hin.
  destruct Hin as [Hin|Hin]; [now apply Hnot|].
  destruct (accept_res env =? 0)%Z; [destruct Hin|].
  destruct Hin as [Hin|[]]. now apply Hne.
Qed.

Lemma listening_socket_left_open_witness :
  closed (calls (snd (server_branch true (mkNetEnv false true 3 true 4 true) boot)))
    = [4%Z] /\
  ~ In 3%Z (closed (calls (snd (server_branch true (mkNetEnv false true 3 true 4 true) boot)))).
Proof.
  destruct (listening_socket_left_open true (mkNetEnv false true 3 true 4 true) boot eq_refl)
    as [H1 H2].
  split; [exact H1|]. apply H2.
  - discriminate.
  - intros [].
Defined.

(** X20: the client branch of [main] passes the handle that [socket]
    returned to [close], once, whether [connect] succeeded or failed (when
    the socket library has started and the handle is not 0); even
    [INVALID_SOCKET] is passed to [close] when [socket] itself failed. *)
Theorem client_socket_closed win32 env s :
  (win32 = true -> startup_error env = false /\ version_ok env = true) ->
  socket_res env <> 0%Z ->
  closed (calls (snd (client_branch win32 env s))) =
    closed (calls s) ++ [socket_res env].
Proof.
  intros Hstart Hne.
  unfold client_branch, ConnectToHost, startup, startup_failed, CloseConnection.
  cbn [fst snd].
  assert (E0 : (socket_res env =? 0)%Z = false) by now apply Z.eqb_neq.
  destruct win32.
  - destruct (Hstart eq_refl) as [-> ->]. cbn [ServerSocket set_ServerSocket did].
    destruct (socket_res env =? INVALID_SOCKET)%Z; cbn [fst snd ServerSocket did];
      [|destruct (connect_ok env); cbn [fst snd ServerSocket did]];
      unfold set_ServerSocket, did; simpl; rewrite E0;
      simpl; rewrite !closed_app; simpl;
      now rewrite ?app_nil_r.
  - cbn [ServerSocket set_ServerSocket did].
    destruct (socket_res env =? INVALID_SOCKET)%Z; cbn [fst snd ServerSocket did];
      [|destruct (connect_ok env); cbn [fst snd ServerSocket did]];
      unfold set_ServerSocket, did; simpl; rewrite E0;
      simpl; rewrite !closed_app; simpl;
      now rewrite ?app_nil_r.
Qed.

Lemma client_socket_closed_witness :
  closed (calls (snd (client_branch false (mkNetEnv false true 3 true 0 false) boot)))
    = [3%Z].
Proof.
  apply (client_socket_closed false (mkNetEnv false true 3 true 0 false) boot).
  - discriminate.
  - discriminate.
Defined.

End NetExtras.

(** * A further property of [main] *)
Module ProgramExtras.
Import Program ProgramSpec.

Lemma following_chat_snoc done l :
  following CallChat done = None ->
  (forall x, In x l -> step_eqb x CallChat = false) ->
  following CallChat (done ++ l) = None.
Proof.
  intros Hd Hl. rewrite ProgramClaims.following_app by assumption.
  induction l as [|x l IH]; [reflexivity|]. simpl.
  rewrite (Hl x) by now left. apply IH. intros y Hy. apply Hl. now right.
Qed.

Lemma main_loop_after_failure script : forall done l,
  following SayFailed done = None -> following CallChat done = None ->
  following SayFailed (fst (main_loop script UNSET done)) = Some l ->
  l = [CallCloseConnection; AskEnter] /\
  snd (main_loop script UNSET done) = Exited /\
  following CallChat (fst (main_loop script UNSET done)) = None.
Proof.
  induction script as [|a script IH]; intros done l Hf Hc; simpl.
  - rewrite ProgramClaims.following_app by assumption. discriminate.
  - destruct (Ascii.eqb (InputChar a) "1"); [|destruct (Ascii.eqb (InputChar a) "2")].
    + unfold after_connect.
      destruct (bConnectionSuccess a); [destruct (session_ends a)|];
        rewrite ?ProgramClaims.main_loop_chosen by discriminate; simpl;
        rewrite <- ?app_assoc, ProgramClaims.following_app by assumption; simpl;
        try discriminate.
      intros [= <-]. split; [reflexivity|]. split; [reflexivity|].
      apply following_chat_snoc; [assumption|].
      intros x Hx. simpl in Hx.
      repeat (destruct Hx as [<-|Hx]; [reflexivity|]). destruct Hx.
    + unfold after_connect.
      destruct (bConnectionSuccess a); [destruct (session_ends a)|];
        rewrite ?ProgramClaims.main_loop_chosen by discriminate; simpl;
        rewrite <- ?app_assoc, ProgramClaims.following_app by assumption; simpl;
        try discriminate.
      intros [= <-]. split; [reflexivity|]. split; [reflexivity|].
      apply following_chat_snoc; [assumption|].
      intros x Hx. simpl in Hx.
      repeat (destruct Hx as [<-|Hx]; [reflexivity|]). destruct Hx.
    + apply IH; rewrite <- app_assoc, ProgramClaims.following_app by assumption;
        reflexivity.
Qed.

(** X21: a connection that cannot be set up is not tried again. When
    [HostServer] or [ConnectToHost] fails, [main] prints "Connection
    failed", calls [CloseConnection] all the same, asks for Enter and
    returns: [Chat] is never called in that run and the role is not asked
    for again. *)
Theorem failed_connection_ends_program script l :
  following SayFailed (fst (main script)) = Some l ->
  l = [CallCloseConnection; AskEnter] /\
  snd (main script) = Exited /\
  following CallChat (fst (main script)) = None.
Proof.
  apply main_loop_after_failure; reflexivity.
Qed.

Lemma failed_connection_ends_program_witness :
  snd (main [mkAttempt "x" true true; mkAttempt "2" false true;
             mkAttempt "1" true true]) = Exited /\
  following CallChat (fst (main [mkAttempt "x" true true; mkAttempt "2" false true;
                                 mkAttempt "1" true true])) = None.
Proof.
  exact (proj2 (failed_connection_ends_program
                  [mkAttempt "x" true true; mkAttempt "2" false true;
                   mkAttempt "1" true true] _ eq_refl)).
Defined.

End ProgramExtras.

(** * A further property of the hand-off *)
Module ThreadsExtras.
Import Threads ThreadsSpec.

(** X22: [pthread_join] never waits for the keyboard. In every
    interleaving, when the main thread reaches the join, the thread the
    handle names has already read its line, trimmed it and set the flag: it
    has terminated, or only its [pthread_exit] is left, after which the
    join returns and the main thread goes on to [send]. *)
Theorem join_never_waits_for_keyboard sched c ok :
  run sched init = Some c -> pc c = LJoin ->
  exists i t,
    InputThread c = Some i /\ nth_error (tasks c) i = Some t /\
    (t = TExit \/ t = TDone) /\
    (t = TDone -> step (Loop ok) c = Some (goto LSend c)) /\
    (t = TExit ->
     exists c1, step (Task i) c = Some c1 /\
                step (Loop ok) c1 = Some (goto LSend c1)).
Proof.
  intros Hrun Hpc.
  destruct (ThreadsClaims.inv_run sched init c ThreadsClaims.inv_init Hrun)
    as [ds [t [[Hds Hsh] [Hok Hfl]]]].
  unfold pc_ok in Hok. rewrite Hpc in Hok. unfold flag_ok in Hfl.
  assert (Ht : exists t0, t = Some t0 /\ (t0 = TExit \/ t0 = TDone)).
  { destruct (Hfl Hok) as [-> | ->]; eauto. }
  destruct Ht as [t0 [-> Ht0]]. destruct Hsh as [Htasks Hhandle].
  exists (length ds), t0.
  split; [assumption|].
  split; [rewrite Htasks; apply ThreadsClaims.nth_error_last|].
  split; [assumption|]. split.
  - intros ->. simpl. rewrite Hpc, Hhandle, Htasks, ThreadsClaims.nth_error_last.
    reflexivity.
  - intros ->. eexists. split.
    + simpl. rewrite Htasks, ThreadsClaims.nth_error_last. simpl.
      rewrite ThreadsClaims.update_last. reflexivity.
    + simpl. rewrite Hpc, Hhandle, ThreadsClaims.nth_error_last. reflexivity.
Qed.

Lemma join_never_waits_for_keyboard_witness :
  exists i t,
    InputThread (mkConfig LJoin true false [TExit] (Some 0)) = Some i /\
    nth_error (tasks (mkConfig LJoin true false [TExit] (Some 0))) i = Some t /\
    (t = TExit \/ t = TDone).
Proof.
  assert (E : run [Loop true; Task 0; Task 0; Task 0; Task 0; Loop true] init
              = Some (mkConfig LJoin true false [TExit] (Some 0))) by reflexivity.
  destruct (join_never_waits_for_keyboard _ _ true E eq_refl)
    as [i [t [H1 [H2 [H3 _]]]]].
  exists i, t. auto.
Defined.

End ThreadsExtras.

(** * A further property of the keyboard thread *)
Module InputExtras.

Lemma store_length b i c b' : store b i c = Some b' -> length b' = length b.
Proof.
  unfold store.
  destruct ((0 <=? i) && (i <? Z.of_nat (length b)))%Z eqn:E; [|discriminate].
  apply andb_true_iff in E. destruct E as [E0 E1].
  apply Z.leb_le in E0. apply Z.ltb_lt in E1.
  intros H.
  assert (Hb' : b' = firstn (Z.to_nat i) b ++ c :: skipn (S (Z.to_nat i)) b)
    by congruence.
  assert (Hcons : forall (x : ascii) l, length (x :: l) = S (length l))
    by reflexivity.
  rewrite Hb', length_app, Hcons, length_firstn, length_skipn. lia.
Qed.

Lemma trim_last_length c b b' : trim_last c b = Some b' -> length b' = length b.
Proof.
  unfold trim_last. destruct (strlen b); [|discriminate].
  destruct (load b _); [|discriminate].
  destruct (Ascii.eqb a c).
  - apply store_length.
  - now intros [= <-].
Qed.

(** When the two trimming steps leave the array: exactly on the empty
    string and on the lone newline. *)
Lemma trims_none_iff b s :
  length b = 300 -> holds b s ->
  ((b1 <- trim_last LF b ;; trim_last CR b1) = None <-> s = [] \/ s = [LF]).
Proof.
  intros Hb Hh.
  assert (Hsize : (Z.of_nat 300 < 2 ^ SIZE_WIDTH)%Z) by (unfold SIZE_WIDTH; lia).
  split.
  - intros Hnone.
    destruct (list_eq_dec ascii_dec s []) as [E1|E1]; [now left|].
    destruct (list_eq_dec ascii_dec s [LF]) as [E2|E2]; [now right|].
    assert (Hl : length s <= 300).
    { destruct Hh as [_ [r Hr]]. rewrite Hr, length_app in Hb. lia. }
    destruct (SessionExtras.trims_holds b s Hh E1 E2 Hl) as [b2 [H _]].
    rewrite H in Hnone. discriminate Hnone.
  - intros [-> | ->].
    + rewrite trim_last_empty; [reflexivity|assumption|now rewrite Hb].
    + destruct (trim_last_holds LF b [] LF Hh) as [b1 [E1 H1]];
        [unfold SIZE_WIDTH; simpl; lia|].
      rewrite E1. change (Ascii.eqb LF LF) with true in H1. cbv iota in H1.
      apply trim_last_empty; [assumption|].
      rewrite (trim_last_length _ _ _ E1), Hb. exact Hsize.
Qed.

(** X4: when [WaitForUserInput] reads outside [InputBuffer]. For keyboard
    input without NUL, the behaviour of the thread is undefined in exactly
    two cases: the line read is a lone newline, or nothing could be read
    and the string still in [InputBuffer] is empty or a lone newline. In
    every other case all its accesses are inside the array. *)
Theorem WaitForUserInput_undefined_iff stdin b s0 L rest :
  length b = 300 -> holds b s0 ->
  fgets_take 299 stdin = (L, rest) -> ~ In NUL L ->
  (WaitForUserInput stdin b = None <->
   L = [LF] \/ (L = [] /\ (s0 = [] \/ s0 = [LF]))).
Proof.
  intros Hb Hh Ht Hn.
  assert (Hw : forall b0 s, fgets b 300 stdin = (b0, rest) -> length b0 = 300 ->
                 holds b0 s ->
                 (WaitForUserInput stdin b = None <-> s = [] \/ s = [LF])).
  { intros b0 s Hf Hb0 Hh0. rewrite <- (trims_none_iff b0 s Hb0 Hh0).
    unfold WaitForUserInput. rewrite Hf.
    destruct (trim_last LF b0) as [b1|]; [|tauto].
    destruct (trim_last CR b1) as [b2|]; [|tauto].
    split; discriminate. }
  destruct L as [|c L].
  - assert (Hf : fgets b 300 stdin = (b, rest)).
    { unfold fgets. change (300 - 1) with 299. now rewrite Ht. }
    rewrite (Hw b s0 Hf Hb Hh). split.
    + intros H. right. split; [reflexivity|exact H].
    + intros [H|[_ H]]; [discriminate H|exact H].
  - destruct (fgets_holds b stdin (c :: L) rest Ht) as [Hf Hh']; [discriminate|assumption|].
    assert (Hlen : length (c :: L) <= 299).
    { pose proof (fgets_take_length 299 stdin) as H. now rewrite Ht in H. }
    assert (Hb' : length (blit ((c :: L) ++ [NUL]) b) = 300).
    { unfold blit. rewrite length_app, length_skipn, length_app.
      cbn [length] in *. lia. }
    rewrite (Hw _ (c :: L) Hf Hb' Hh'). split.
    + intros [H|H]; [discriminate H|now left].
    + intros [H|[H _]]; [now right|discriminate H].
Qed.

Lemma WaitForUserInput_undefined_iff_witness :
  WaitForUserInput (text "ok" ++ [LF]) zeroed = None <->
  text "ok" ++ [LF] = [LF] \/
  (text "ok" ++ [LF] = [] /\ (@nil ascii = [] \/ @nil ascii = [LF])).
Proof.
  apply (WaitForUserInput_undefined_iff (text "ok" ++ [LF]) zeroed [] (text "ok" ++ [LF]) []).
  - reflexivity.
  - split; [intros []|]. exists (repeat NUL 299). reflexivity.
  - reflexivity.
  - intros [H|[H|[H|[]]]]; discriminate H.
Defined.

End InputExtras.
